(** * The notes client (public/script.js): a shallow embedding

    The class [NotesApp] of public/script.js keeps an array of notes, the
    note bound to the editor and a flag, and synchronises them with the DOM
    and with the remote collection behind [/api/notes].  This file embeds
    its methods as functions on an explicit state and proves the
    properties the specification states about them.

    Modelling decisions, fixed once:
    - a JS string is a [string]: a sequence of 8-bit code units, that is
      the Latin-1 range of UTF-16.  On that range [trim], [toLowerCase]
      and the serialisation of a text node are as ECMAScript and HTML
      define them;
    - [createdAt] and [updatedAt] hold the time value that [new Date(..)]
      gives for the server's timestamp (an integer number of
      milliseconds); timestamps that do not parse are outside the model;
    - [formatDate] depends on the locale of the browser and is a
      parameter;
    - an [async] method is split at its [await]: the part that runs up to
      the [fetch], and the continuation that runs on the response. *)

From Stdlib Require Import ZArith Lia Bool List Ascii String.
From Stdlib Require Import Permutation Sorted DecimalString.
Import ListNotations.

Open Scope string_scope.
Open Scope list_scope.

(** ** Strings *)

Module JsString.

(** WhiteSpace and LineTerminator code units below 256:
    TAB, LF, VT, FF, CR, SP and NBSP. *)
Definition isWhiteSpace (c : ascii) : bool :=
  let n := nat_of_ascii c in
  ((9 <=? n) && (n <=? 13) || (n =? 32) || (n =? 160))%nat.

Fixpoint trimStart (s : string) : string :=
  match s with
  | EmptyString => EmptyString
  | String c s' => if isWhiteSpace c then trimStart s' else s
  end.

Fixpoint trimEnd (s : string) : string :=
  match s with
  | EmptyString => EmptyString
  | String c s' =>
      match trimEnd s' with
      | EmptyString => if isWhiteSpace c then EmptyString else String c EmptyString
      | t => String c t
      end
  end.

(** [String.prototype.trim] *)
Definition trim (s : string) : string := trimEnd (trimStart s).

(** Upper-case letters below 256 are A..Z and U+00C0..U+00DE without the
    multiplication sign U+00D7; each has its lower case 32 above. *)
Definition toLowerChar (c : ascii) : ascii :=
  let n := nat_of_ascii c in
  if ((65 <=? n) && (n <=? 90)
      || (192 <=? n) && (n <=? 222) && negb (n =? 215))%nat
  then ascii_of_nat (n + 32)
  else c.

(** [String.prototype.toLowerCase] *)
Fixpoint toLowerCase (s : string) : string :=
  match s with
  | EmptyString => EmptyString
  | String c s' => String (toLowerChar c) (toLowerCase s')
  end.

(** [String.prototype.startsWith], used by [includes] *)
Fixpoint startsWith (hay needle : string) : bool :=
  match needle, hay with
  | EmptyString, _ => true
  | String _ _, EmptyString => false
  | String a needle', String b hay' => Ascii.eqb a b && startsWith hay' needle'
  end.

(** [String.prototype.includes]: the needle starts at some position *)
Fixpoint includes (hay needle : string) : bool :=
  startsWith hay needle ||
  match hay with
  | EmptyString => false
  | String _ hay' => includes hay' needle
  end.

(** [String.prototype.substring(start, end)] on indices that are
    already natural numbers: both are clamped to the length and
    swapped when out of order. *)
Definition substring (s : string) (start end_ : nat) : string :=
  String.substring (Nat.min start end_) (Nat.max start end_ - Nat.min start end_) s.

(** JS truthiness of a string: the empty string is falsy. *)
Definition truthy (s : string) : bool :=
  match s with EmptyString => false | _ => true end.

End JsString.

(** ** HTML text *)

(** [escapeHtml] sets [textContent] of a fresh div and reads [innerHTML]
    back: the HTML fragment serialisation of one text node, which
    replaces the ampersand, NBSP and the two angle brackets. *)
Definition escapeChar (c : ascii) : string :=
  match nat_of_ascii c with
  | 38 => "&amp;"
  | 60 => "&lt;"
  | 62 => "&gt;"
  | 160 => "&nbsp;"
  | _ => String c EmptyString
  end.

Fixpoint escapeHtml (text : string) : string :=
  match text with
  | EmptyString => EmptyString
  | String c text' => escapeChar c ++ escapeHtml text'
  end.

(** ** Notes *)

Module Note.
Record t : Type := mk {
  id : string;
  title : string;
  content : string;
  createdAt : Z;
  updatedAt : Z
}.
End Note.

Definition Note := Note.t.

(** [a.id === b] on strings *)
Definition id_is (noteId : string) (n : Note) : bool := String.eqb (Note.id n) noteId.

(** [a.id !== b], the test of the [filter] in [deleteNote] *)
Definition other_than (noteId : string) (n : Note) : bool := negb (id_is noteId n).

(** ** Arrays *)

Section ArraySort.
Context {A : Type}.
Variable compareFn : A -> A -> Z.

(** [Array.prototype.sort] is stable: with a comparator that is a
    consistent ordering its result is determined, and it is the one
    insertion computes.  [compareFn a b <= 0] keeps [a] before [b]. *)
Fixpoint insert (x : A) (l : list A) : list A :=
  match l with
  | [] => [x]
  | y :: l' => if (compareFn x y <=? 0)%Z then x :: l else y :: insert x l'
  end.

Definition sort (l : list A) : list A := fold_right insert [] l.

(** [Array.prototype.findIndex], [None] where JS returns -1 *)
Fixpoint findIndex (p : A -> bool) (l : list A) : option nat :=
  match l with
  | [] => None
  | x :: l' => if p x then Some 0%nat else option_map S (findIndex p l')
  end.

(** [a[i] = v] for [i] below the length *)
Fixpoint assign (l : list A) (i : nat) (v : A) : list A :=
  match l, i with
  | [], _ => []
  | _ :: l', O => v :: l'
  | x :: l', S i' => x :: assign l' i' v
  end.
End ArraySort.

(** The comparator of [renderNotesList]:
    [new Date(b.updatedAt) - new Date(a.updatedAt)]. *)
Definition byUpdatedDesc (a b : Note) : Z := Note.updatedAt b - Note.updatedAt a.

(** ** The state of the application *)

(** One [div.note-item] of the list, as the template of
    [renderNotesList] fills it. *)
Record Item : Type := mkItem {
  item_active : bool;      (* class "active" *)
  data_id : string;        (* data-id *)
  h3 : string;             (* markup inside h3 *)
  p : string;              (* markup inside p *)
  note_date : string       (* text of div.note-date *)
}.

(** What [notesList.innerHTML] holds. *)
Inductive NotesList : Type :=
| empty_notes                      (* the div "No notes found" *)
| note_items (items : list Item).

(** The fields of [this], and of the elements [initializeElements]
    looks up, that the methods read or write.  [notifications] are the
    elements [showNotification] appends to the body (their removal after
    three seconds is left out), [console] the labels passed to
    [console.error]. *)
Record NotesApp : Type := mkApp {
  notes : list Note;
  currentNote : option Note;
  isEditing : bool;
  notesList : NotesList;
  emptyState_display : string;
  noteForm_display : string;
  noteTitle_value : string;
  noteContent_value : string;
  noteMeta_textContent : string;
  deleteBtn_display : string;
  loadingIndicator_display : string;
  activeElement : string;
  notifications : list (string * string);
  console : list string
}.

Definition set_notes v (a : NotesApp) :=
  mkApp v (currentNote a) (isEditing a) (notesList a) (emptyState_display a) (noteForm_display a) (noteTitle_value a) (noteContent_value a) (noteMeta_textContent a) (deleteBtn_display a) (loadingIndicator_display a) (activeElement a) (notifications a) (console a).
Definition set_currentNote v (a : NotesApp) :=
  mkApp (notes a) v (isEditing a) (notesList a) (emptyState_display a) (noteForm_display a) (noteTitle_value a) (noteContent_value a) (noteMeta_textContent a) (deleteBtn_display a) (loadingIndicator_display a) (activeElement a) (notifications a) (console a).
Definition set_isEditing v (a : NotesApp) :=
  mkApp (notes a) (currentNote a) v (notesList a) (emptyState_display a) (noteForm_display a) (noteTitle_value a) (noteContent_value a) (noteMeta_textContent a) (deleteBtn_display a) (loadingIndicator_display a) (activeElement a) (notifications a) (console a).
Definition set_notesList v (a : NotesApp) :=
  mkApp (notes a) (currentNote a) (isEditing a) v (emptyState_display a) (noteForm_display a) (noteTitle_value a) (noteContent_value a) (noteMeta_textContent a) (deleteBtn_display a) (loadingIndicator_display a) (activeElement a) (notifications a) (console a).
Definition set_emptyState_display v (a : NotesApp) :=
  mkApp (notes a) (currentNote a) (isEditing a) (notesList a) v (noteForm_display a) (noteTitle_value a) (noteContent_value a) (noteMeta_textContent a) (deleteBtn_display a) (loadingIndicator_display a) (activeElement a) (notifications a) (console a).
Definition set_noteForm_display v (a : NotesApp) :=
  mkApp (notes a) (currentNote a) (isEditing a) (notesList a) (emptyState_display a) v (noteTitle_value a) (noteContent_value a) (noteMeta_textContent a) (deleteBtn_display a) (loadingIndicator_display a) (activeElement a) (notifications a) (console a).
Definition set_noteTitle_value v (a : NotesApp) :=
  mkApp (notes a) (currentNote a) (isEditing a) (notesList a) (emptyState_display a) (noteForm_display a) v (noteContent_value a) (noteMeta_textContent a) (deleteBtn_display a) (loadingIndicator_display a) (activeElement a) (notifications a) (console a).
Definition set_noteContent_value v (a : NotesApp) :=
  mkApp (notes a) (currentNote a) (isEditing a) (notesList a) (emptyState_display a) (noteForm_display a) (noteTitle_value a) v (noteMeta_textContent a) (deleteBtn_display a) (loadingIndicator_display a) (activeElement a) (notifications a) (console a).
Definition set_noteMeta_textContent v (a : NotesApp) :=
  mkApp (notes a) (currentNote a) (isEditing a) (notesList a) (emptyState_display a) (noteForm_display a) (noteTitle_value a) (noteContent_value a) v (deleteBtn_display a) (loadingIndicator_display a) (activeElement a) (notifications a) (console a).
Definition set_deleteBtn_display v (a : NotesApp) :=
  mkApp (notes a) (currentNote a) (isEditing a) (notesList a) (emptyState_display a) (noteForm_display a) (noteTitle_value a) (noteContent_value a) (noteMeta_textContent a) v (loadingIndicator_display a) (activeElement a) (notifications a) (console a).
Definition set_loadingIndicator_display v (a : NotesApp) :=
  mkApp (notes a) (currentNote a) (isEditing a) (notesList a) (emptyState_display a) (noteForm_display a) (noteTitle_value a) (noteContent_value a) (noteMeta_textContent a) (deleteBtn_display a) v (activeElement a) (notifications a) (console a).
Definition set_activeElement v (a : NotesApp) :=
  mkApp (notes a) (currentNote a) (isEditing a) (notesList a) (emptyState_display a) (noteForm_display a) (noteTitle_value a) (noteContent_value a) (noteMeta_textContent a) (deleteBtn_display a) (loadingIndicator_display a) v (notifications a) (console a).
Definition set_notifications v (a : NotesApp) :=
  mkApp (notes a) (currentNote a) (isEditing a) (notesList a) (emptyState_display a) (noteForm_display a) (noteTitle_value a) (noteContent_value a) (noteMeta_textContent a) (deleteBtn_display a) (loadingIndicator_display a) (activeElement a) v (console a).
Definition set_console v (a : NotesApp) :=
  mkApp (notes a) (currentNote a) (isEditing a) (notesList a) (emptyState_display a) (noteForm_display a) (noteTitle_value a) (noteContent_value a) (noteMeta_textContent a) (deleteBtn_display a) (loadingIndicator_display a) (activeElement a) (notifications a) v.

(** ** The remote collection *)

Inductive Method : Type := GET | POST | PUT | DELETE.

(** A call of [fetch]: the URL, the method and, for POST and PUT, the
    pair that [JSON.stringify({ title, content })] serialises. *)
Record Request : Type := mkRequest {
  url : string;
  method : Method;
  body : option (string * string)
}.

(** How a [fetch] settles: the promise rejects, or it resolves to a
    response with a status and a body.  [json] is [None] when
    [response.json()] rejects, and otherwise the value of the shape the
    endpoint documents. *)
Inductive Fetched (A : Type) : Type :=
| rejected
| response (status : Z) (json : option A).
Arguments rejected {A}.
Arguments response {A} status json.

(** [response.ok]: the status is in the range 200-299. *)
Definition ok (status : Z) : bool := ((200 <=? status) && (status <=? 299))%Z.

(** What a method asks of the world around it. *)
Inductive Effect : Type :=
| fetch (r : Request)
| confirm (message : string).

(** ** Sample data *)

(** A [formatDate] for the examples: the time value in decimal. *)
Definition decimalDate (t : Z) : string := NilZero.string_of_int (Z.to_int t).

(** A page before the constructor has run: the placeholder shown, the
    form hidden, nothing typed. *)
Definition blank_page : NotesApp :=
  mkApp [] None false empty_notes "flex" "none" "" "" "" "none" "none" "" [] [].

Definition note_a : Note := Note.mk "a" "Alpha" "first" 1 1.
Definition note_b : Note := Note.mk "b" "Beta" "second" 2 2.

(** The server's answer to an update of [note_a]. *)
Definition note_a2 : Note := Note.mk "a" "Alpha" "first, edited" 1 3.

(** The server's answers to the creation and to an update of a note
    "Hello" / "World". *)
Definition note_n1 : Note := Note.mk "n1" "Hello" "World" 5 5.
Definition note_n2 : Note := Note.mk "n1" "Hello" "World" 5 7.

(** The answer to [GET /api/notes] in the examples. *)
Definition loaded : Fetched (list Note) := response 200 (Some [note_a; note_b]).

(** ** The methods of [NotesApp] *)

Section Methods.

(** [formatDate], which renders a time value in the browser's locale. *)
Variable formatDate : Z -> string.

Definition showLoading (show : bool) (a : NotesApp) : NotesApp :=
  set_loadingIndicator_display (if show then "flex" else "none") a.

Definition showNotification (message type : string) (a : NotesApp) : NotesApp :=
  set_notifications (notifications a ++ [(message, type)]) a.

Definition showSuccess (message : string) := showNotification message "success".
Definition showError (message : string) := showNotification message "error".

Definition console_error (label : string) (a : NotesApp) : NotesApp :=
  set_console (console a ++ [label]) a.

(** The text of the paragraph under the title of a list item:
    [escapeHtml(note.content.substring(0, 100))] and then three dots
    when [note.content.length > 100]. *)
Definition preview (note : Note) : string :=
  escapeHtml (JsString.substring (Note.content note) 0 100)
  ++ (if (100 <? String.length (Note.content note))%nat then "..." else "").

(** The body of the [map] callback of [renderNotesList];
    [current?.id === note.id] is false when there is no current note. *)
Definition renderItem (current : option Note) (note : Note) : Item :=
  {| item_active := match current with
                    | Some c => String.eqb (Note.id c) (Note.id note)
                    | None => false
                    end;
     data_id := Note.id note;
     h3 := escapeHtml (Note.title note);
     p := preview note;
     note_date := formatDate (Note.updatedAt note) |}.

(** [renderNotesList(filteredNotes = null)].  [filteredNotes ||
    this.notes] takes the argument whenever it is an array, empty or
    not.  [sort] works in place: when the array rendered is
    [this.notes] itself, [this.notes] is left sorted. *)
Definition renderNotesList (filteredNotes : option (list Note)) (a : NotesApp) : NotesApp :=
  let notesToRender := match filteredNotes with Some l => l | None => notes a end in
  match notesToRender with
  | [] => set_notesList empty_notes a
  | _ :: _ =>
      let sorted := sort byUpdatedDesc notesToRender in
      let a' := match filteredNotes with Some _ => a | None => set_notes sorted a end in
      set_notesList (note_items (map (renderItem (currentNote a')) sorted)) a'
  end.

Definition showNoteEditor (a : NotesApp) : NotesApp :=
  set_noteForm_display "flex" (set_emptyState_display "none" a).

Definition hideNoteEditor (a : NotesApp) : NotesApp :=
  set_currentNote None
    (set_isEditing false
       (set_noteForm_display "none" (set_emptyState_display "flex" a))).

Definition updateNoteMeta (note : Note) (a : NotesApp) : NotesApp :=
  let created := formatDate (Note.createdAt note) in
  let updated := formatDate (Note.updatedAt note) in
  set_noteMeta_textContent ("Created: " ++ created ++ " | Last updated: " ++ updated) a.

Definition populateEditor (note : Note) (a : NotesApp) : NotesApp :=
  set_deleteBtn_display "inline-block"
    (updateNoteMeta note
       (set_noteContent_value (Note.content note)
          (set_noteTitle_value (Note.title note) a))).

Definition clearEditor (a : NotesApp) : NotesApp :=
  set_deleteBtn_display "none"
    (set_noteMeta_textContent ""
       (set_noteContent_value "" (set_noteTitle_value "" a))).

(** [searchNotes(query)] *)
Definition matches (query : string) (note : Note) : bool :=
  JsString.includes (JsString.toLowerCase (Note.title note)) (JsString.toLowerCase query)
  || JsString.includes (JsString.toLowerCase (Note.content note)) (JsString.toLowerCase query).

Definition searchNotes (query : string) (a : NotesApp) : NotesApp :=
  if negb (JsString.truthy (JsString.trim query)) then renderNotesList None a
  else
    let filtered := filter (matches query) (notes a) in
    renderNotesList (Some filtered) a.

(** [selectNote(noteId)] *)
Definition selectNote (noteId : string) (a : NotesApp) : NotesApp :=
  match find (id_is noteId) (notes a) with
  | None => a
  | Some note =>
      renderNotesList None
        (populateEditor note
           (showNoteEditor (set_isEditing true (set_currentNote (Some note) a))))
  end.

(** [createNewNote()] *)
Definition createNewNote (a : NotesApp) : NotesApp :=
  set_activeElement "noteTitle"
    (clearEditor (showNoteEditor (set_isEditing true (set_currentNote None a)))).

(** [cancelEdit()] *)
Definition cancelEdit (a : NotesApp) : NotesApp :=
  match currentNote a with
  | Some note => populateEditor note a
  | None => hideNoteEditor a
  end.

(** *** loadNotes *)

Definition loadNotes_request (a : NotesApp) : NotesApp * list Effect :=
  (showLoading true a, [fetch (mkRequest "/api/notes" GET None)]).

(** The continuation of [loadNotes] on the settled [fetch].  The
    status of the response is not read; a rejected [fetch] and a body
    that is not JSON both end in the [catch]. *)
Definition loadNotes_response (r : Fetched (list Note)) (a : NotesApp) : NotesApp :=
  let tried :=
    match r with
    | response _ (Some l) => renderNotesList None (set_notes l a)
    | _ => showError "Failed to load notes" (console_error "Error loading notes:" a)
    end in
  showLoading false tried.

(** *** saveNote *)

Definition note_url (note : Note) : string := "/api/notes/" ++ Note.id note.

(** [saveNote(silent)] up to its [fetch]: the validation, and the
    request when the fields pass it. *)
Definition saveNote_request (silent : bool) (a : NotesApp) : NotesApp * list Effect :=
  let title := JsString.trim (noteTitle_value a) in
  let content := JsString.trim (noteContent_value a) in
  if negb (JsString.truthy title) || negb (JsString.truthy content) then
    ((if negb silent then showError "Title and content are required" a else a), [])
  else
    let a1 := if negb silent then showLoading true a else a in
    (a1, [fetch (match currentNote a1 with
                 | Some cur => mkRequest (note_url cur) PUT (Some (title, content))
                 | None => mkRequest "/api/notes" POST (Some (title, content))
                 end)]).

Definition saveNote_catch (silent : bool) (a : NotesApp) : NotesApp :=
  let a1 := console_error "Error saving note:" a in
  if negb silent then showError "Failed to save note" a1 else a1.

(** The continuation of [saveNote] on the settled [fetch].
    [this.currentNote] is read again here.  When [findIndex] finds
    nothing, [this.notes[-1] = savedNote] sets a property that is no
    element of the array, and the elements stay as they are. *)
Definition saveNote_response (silent : bool) (r : Fetched Note) (a : NotesApp) : NotesApp :=
  let tried :=
    match r with
    | rejected => saveNote_catch silent a
    | response status json =>
        if negb (ok status) then saveNote_catch silent a
        else match json with
             | None => saveNote_catch silent a
             | Some savedNote =>
                 let a1 :=
                   match currentNote a with
                   | Some cur =>
                       match findIndex (id_is (Note.id cur)) (notes a) with
                       | Some index => set_notes (assign (notes a) index savedNote) a
                       | None => a
                       end
                   | None => set_notes (notes a ++ [savedNote]) a
                   end in
                 let a2 := set_currentNote (Some savedNote) a1 in
                 let a3 := renderNotesList None a2 in
                 let a4 := updateNoteMeta savedNote a3 in
                 let a5 := set_deleteBtn_display "inline-block" a4 in
                 if negb silent then showSuccess "Note saved successfully" a5 else a5
             end
    end in
  if negb silent then showLoading false tried else tried.

(** *** deleteNote *)

Definition confirm_delete : string := "Are you sure you want to delete this note?".

(** [deleteNote()] up to its [fetch]; [confirmed] is the answer to the
    [confirm] dialog, asked only when a note is bound. *)
Definition deleteNote_request (confirmed : bool) (a : NotesApp)
  : NotesApp * list Effect :=
  match currentNote a with
  | None => (a, [])
  | Some cur =>
      if negb confirmed then (a, [confirm confirm_delete])
      else (showLoading true a,
            [confirm confirm_delete; fetch (mkRequest (note_url cur) DELETE None)])
  end.

Definition deleteNote_catch (a : NotesApp) : NotesApp :=
  showError "Failed to delete note" (console_error "Error deleting note:" a).

(** The continuation of [deleteNote].  [this.currentNote.id] is read
    inside the callback of [filter]: with no current note it throws
    at the first element, and not at all on an empty array. *)
Definition deleteNote_response (r : Fetched unit) (a : NotesApp) : NotesApp :=
  let removed (kept : list Note) :=
    showSuccess "Note deleted successfully"
      (hideNoteEditor (renderNotesList None (set_notes kept a))) in
  let tried :=
    match r with
    | rejected => deleteNote_catch a
    | response status _ =>
        if negb (ok status) then deleteNote_catch a
        else match currentNote a, notes a with
             | Some cur, l => removed (filter (other_than (Note.id cur)) l)
             | None, [] => removed []
             | None, _ :: _ => deleteNote_catch a
             end
    end in
  showLoading false tried.

(** *** A method and its response in one step *)

(** Whether a method stopped at an [await fetch(..)]. *)
Definition is_fetch (e : Effect) : bool :=
  match e with fetch _ => true | confirm _ => false end.

Definition awaits (effects : list Effect) : bool := existsb is_fetch effects.

(** The methods below run a request and its continuation with nothing
    in between: the response is handled in the state the request
    left.  That is the page when the answer arrives before any other
    event ([play_at_once]); [advance], further down, takes the answers
    whenever they come. *)
Definition loadNotes (r : Fetched (list Note)) (a : NotesApp) : NotesApp * list Effect :=
  let (a1, effects) := loadNotes_request a in
  (loadNotes_response r a1, effects).

Definition saveNote (silent : bool) (r : Fetched Note) (a : NotesApp)
  : NotesApp * list Effect :=
  let (a1, effects) := saveNote_request silent a in
  (if awaits effects then saveNote_response silent r a1 else a1, effects).

Definition deleteNote (confirmed : bool) (r : Fetched unit) (a : NotesApp)
  : NotesApp * list Effect :=
  let (a1, effects) := deleteNote_request confirmed a in
  (if awaits effects then deleteNote_response r a1 else a1, effects).

(** [constructor()], on the page as index.html builds it (the markup
    is not part of these sources; only the fields the methods write
    matter).  The constructor ends by calling [loadNotes]. *)
Definition constructor (page : NotesApp) : NotesApp :=
  set_isEditing false (set_currentNote None (set_notes [] page)).

(** ** The editor state of the specification *)

(** [Closed], [Creating] and [Editing note] are the three combinations
    of [isEditing] and [currentNote] the methods set together; a bound
    note with [isEditing] false is none of them. *)
Inductive EditorState : Type :=
| Closed
| Creating
| Editing (note : Note).

Definition editorState (a : NotesApp) : option EditorState :=
  match currentNote a, isEditing a with
  | Some note, true => Some (Editing note)
  | None, true => Some Creating
  | None, false => Some Closed
  | Some _, false => None
  end.

(** ** Timers and events *)

(** The page with its timers: [saveTimeout] is the variable that
    [bindEvents] closes over, [timers] the auto-save timers the
    browser has pending, each with its identifier and the time it is
    due, in milliseconds. *)
Record World : Type := mkWorld {
  app : NotesApp;
  saveTimeout : option nat;
  timers : list (nat * N);
  clock : N;
  nextTimer : nat
}.

Definition set_app (a : NotesApp) (w : World) : World :=
  mkWorld a (saveTimeout w) (timers w) (clock w) (nextTimer w).

(** [clearTimeout(id)]; an identifier that is undefined or no longer
    pending clears nothing. *)
Definition clearTimeout (handle : option nat) (w : World) : World :=
  match handle with
  | None => w
  | Some h =>
      mkWorld (app w) (saveTimeout w)
        (filter (fun t => negb (Nat.eqb (fst t) h)) (timers w))
        (clock w) (nextTimer w)
  end.

(** [setTimeout(callback, delay)] with the auto-save callback: a fresh
    identifier, due [delay] from now. *)
Definition setTimeout (delay : N) (w : World) : nat * World :=
  (nextTimer w,
   mkWorld (app w) (saveTimeout w)
     (timers w ++ [(nextTimer w, (clock w + delay)%N)])
     (clock w) (S (nextTimer w))).

(** [autoSave], the listener of the [input] events of both fields. *)
Definition autoSave (w : World) : World :=
  let w1 := clearTimeout (saveTimeout w) w in
  let (handle, w2) := setTimeout 2000 w1 in
  mkWorld (app w2) (Some handle) (timers w2) (clock w2) (nextTimer w2).

(** The callback [autoSave] hands to [setTimeout]. *)
Definition autoSave_callback (r : Fetched Note) (a : NotesApp) : NotesApp * list Effect :=
  if isEditing a && match currentNote a with Some _ => true | None => false end
  then saveNote true r a
  else (a, []).

(** What the user and the clock do to the page.  An event that makes
    a request carries the way the request settles; [elapse] carries
    it for the auto-save its timer may start. *)
Inductive Event : Type :=
| click_newNoteBtn
| click_saveBtn (r : Fetched Note)
| click_deleteBtn (confirmed : bool) (r : Fetched unit)
| click_cancelBtn
| input_searchInput (value : string)
| click_note_item (dataId : string)
| input_noteTitle (value : string)
| input_noteContent (value : string)
| elapse (ms : N) (r : Fetched Note).

(** Run the callbacks of the timers that are due, oldest first. *)
Fixpoint fire (due : list (nat * N)) (r : Fetched Note) (a : NotesApp)
  : NotesApp * list Effect :=
  match due with
  | [] => (a, [])
  | _ :: due' =>
      let (a1, e1) := autoSave_callback r a in
      let (a2, e2) := fire due' r a1 in
      (a2, e1 ++ e2)
  end.

Definition is_due (now : N) (t : nat * N) : bool := (snd t <=? now)%N.

Definition step (e : Event) (w : World) : World * list Effect :=
  match e with
  | click_newNoteBtn => (set_app (createNewNote (app w)) w, [])
  | click_saveBtn r =>
      let (a, effects) := saveNote false r (app w) in (set_app a w, effects)
  | click_deleteBtn confirmed r =>
      let (a, effects) := deleteNote confirmed r (app w) in (set_app a w, effects)
  | click_cancelBtn => (set_app (cancelEdit (app w)) w, [])
  | input_searchInput value => (set_app (searchNotes value (app w)) w, [])
  | click_note_item dataId => (set_app (selectNote dataId (app w)) w, [])
  | input_noteTitle value =>
      (autoSave (set_app (set_noteTitle_value value (app w)) w), [])
  | input_noteContent value =>
      (autoSave (set_app (set_noteContent_value value (app w)) w), [])
  | elapse ms r =>
      let now := (clock w + ms)%N in
      let due := filter (is_due now) (timers w) in
      let (a, effects) := fire due r (app w) in
      (mkWorld a (saveTimeout w)
         (filter (fun t => negb (is_due now t)) (timers w))
         now (nextTimer w),
       effects)
  end.

(** A run of events, with the effects of each. *)
Fixpoint run (events : list Event) (w : World) : World * list (list Effect) :=
  match events with
  | [] => (w, [])
  | e :: events' =>
      let (w1, effects) := step e w in
      let (w2, trace) := run events' w1 in
      (w2, effects :: trace)
  end.

(** The world after [new NotesApp()] and the answer [r] to its
    [loadNotes], when the answer arrives before any event; [open] is
    the page before it. *)
Definition start (page : NotesApp) (r : Fetched (list Note)) : World :=
  mkWorld (fst (loadNotes r (constructor page))) None [] 0%N 0%nat.

(** The requests that auto-save made in a run: those of its [elapse]
    events, whose only callbacks are the auto-save timers. *)
Fixpoint autoSave_effects (events : list Event) (trace : list (list Effect)) : list Effect :=
  match events, trace with
  | elapse _ _ :: events', effects :: trace' => effects ++ autoSave_effects events' trace'
  | _ :: events', _ :: trace' => autoSave_effects events' trace'
  | _, _ => []
  end.

(** ** What the specification's words mean *)

(** [text] contains [query] case-insensitively: some stretch of [text]
    is [query] up to the case of its letters. *)
Definition Contains_ci (text query : string) : Prop :=
  exists pre mid post,
    text = (pre ++ mid ++ post)%string
    /\ JsString.toLowerCase mid = JsString.toLowerCase query.

(** A note is a hit of a search when its title or its content contains
    the query case-insensitively. *)
Definition Hit (query : string) (note : Note) : Prop :=
  Contains_ci (Note.title note) query \/ Contains_ci (Note.content note) query.

(** Sorted by [updatedAt] descending: no note is older than one after it. *)
Definition newest_first (a b : Note) : Prop := (Note.updatedAt b <= Note.updatedAt a)%Z.

(** The list element showing a given sequence of notes. *)
Definition list_view (current : option Note) (shown : list Note) : NotesList :=
  match shown with
  | [] => empty_notes
  | _ :: _ => note_items (map (renderItem current) shown)
  end.

(** The collection keeps one note per identifier, and a bound note is
    one of the collection: the data model of the specification. *)
Definition consistent (a : NotesApp) : Prop :=
  NoDup (map Note.id (notes a))
  /\ forall cur, currentNote a = Some cur -> In cur (notes a).

(** The server keeps its side of the data model: the note it returns
    for an update has the identifier of the note updated, the note it
    returns for a creation has an identifier the collection does not
    have yet, and the list it returns has one note per identifier. *)
Definition answers (a : NotesApp) (r : Fetched Note) : Prop :=
  match r with
  | response _ (Some saved) =>
      match currentNote a with
      | Some cur => Note.id saved = Note.id cur
      | None => ~ In (Note.id saved) (map Note.id (notes a))
      end
  | _ => True
  end.

Definition honest (e : Event) (w : World) : Prop :=
  match e with
  | click_saveBtn r => answers (app w) r
  | elapse _ r => answers (app w) r
  | _ => True
  end.

Fixpoint honest_run (events : list Event) (w : World) : Prop :=
  match events with
  | [] => True
  | e :: events' => honest e w /\ honest_run events' (fst (step e w))
  end.

Definition honest_start (r : Fetched (list Note)) : Prop :=
  match r with
  | response _ (Some l) => NoDup (map Note.id l)
  | _ => True
  end.

(** At most one auto-save timer is pending, and it is the one
    [saveTimeout] names. *)
Definition one_timer (w : World) : Prop :=
  timers w = [] \/ exists h due, timers w = [(h, due)] /\ saveTimeout w = Some h.

(** ** Strings *)

Lemma startsWith_spec (hay needle : string) :
  JsString.startsWith hay needle = true <-> exists post, hay = (needle ++ post)%string.
Proof.
  revert hay; induction needle as [|a needle IH]; intros hay.
  - destruct hay; simpl; split; eauto.
  - destruct hay as [|b hay]; simpl.
    + split; [discriminate | intros [post H]; discriminate].
    + rewrite andb_true_iff, IH, Ascii.eqb_eq. split.
      * intros [-> [post ->]]. exists post; reflexivity.
      * intros [post H]. injection H as -> ->. split; eauto.
Qed.

Lemma includes_String (c : ascii) (hay needle : string) :
  JsString.includes (String c hay) needle
  = JsString.startsWith (String c hay) needle || JsString.includes hay needle.
Proof. reflexivity. Qed.

Lemma includes_spec (hay needle : string) :
  JsString.includes hay needle = true
  <-> exists pre post, hay = (pre ++ needle ++ post)%string.
Proof.
  induction hay as [|c hay IH].
  - unfold JsString.includes. rewrite orb_false_r, startsWith_spec. split.
    + intros [post H]. exists ""%string, post. exact H.
    + intros [pre [post H]]. destruct pre; simpl in H; [eauto | discriminate].
  - rewrite includes_String, orb_true_iff, startsWith_spec, IH. split.
    + intros [[post H] | [pre [post H]]].
      * exists ""%string, post; exact H.
      * exists (String c pre), post. simpl. now rewrite H.
    + intros [pre [post H]]. destruct pre as [|c' pre]; simpl in H.
      * left; eauto.
      * right. injection H as _ H. eauto.
Qed.

Lemma toLowerCase_app (s t : string) :
  JsString.toLowerCase (s ++ t) = (JsString.toLowerCase s ++ JsString.toLowerCase t)%string.
Proof. induction s as [|c s IH]; simpl; [reflexivity | now rewrite IH]. Qed.

Lemma toLowerCase_split (text x y : string) :
  JsString.toLowerCase text = (x ++ y)%string ->
  exists s t, text = (s ++ t)%string
              /\ JsString.toLowerCase s = x /\ JsString.toLowerCase t = y.
Proof.
  revert text; induction x as [|c x IH]; intros text H; simpl in H.
  - exists ""%string, text. auto.
  - destruct text as [|d text]; simpl in H; [discriminate|].
    injection H as Hc H. destruct (IH _ H) as (s & t & -> & Hs & Ht).
    exists (String d s), t. simpl. rewrite Hc, Hs. auto.
Qed.

(** The test of [searchNotes] decides containment up to case. *)
Lemma includes_toLowerCase (text query : string) :
  JsString.includes (JsString.toLowerCase text) (JsString.toLowerCase query) = true
  <-> Contains_ci text query.
Proof.
  rewrite includes_spec. split.
  - intros (pre & post & H).
    destruct (toLowerCase_split _ _ _ H) as (s & rest & -> & _ & Hrest).
    destruct (toLowerCase_split _ _ _ Hrest) as (mid & t & -> & Hmid & _).
    exists s, mid, t. auto.
  - intros (pre & mid & post & -> & Hmid).
    exists (JsString.toLowerCase pre), (JsString.toLowerCase post).
    now rewrite !toLowerCase_app, Hmid.
Qed.

Lemma matches_Hit (query : string) (note : Note) :
  matches query note = true <-> Hit query note.
Proof.
  unfold matches, Hit. now rewrite orb_true_iff, !includes_toLowerCase.
Qed.

Lemma truthy_false (s : string) : JsString.truthy s = false <-> s = ""%string.
Proof. destruct s; simpl; split; congruence. Qed.

Lemma length_append (s t : string) :
  String.length (s ++ t) = (String.length s + String.length t)%nat.
Proof. induction s as [|c s IH]; simpl; [reflexivity | now rewrite IH]. Qed.

Lemma substring_all (n : nat) (s : string) :
  (String.length s <= n)%nat -> String.substring 0 n s = s.
Proof.
  revert n; induction s as [|c s IH]; intros [|n] H; simpl in *; try reflexivity; try lia.
  rewrite IH by lia. reflexivity.
Qed.

Lemma substring_prefix (n : nat) (s : string) :
  (n <= String.length s)%nat ->
  exists rest, s = (String.substring 0 n s ++ rest)%string
               /\ String.length (String.substring 0 n s) = n.
Proof.
  revert s; induction n as [|n IH]; intros s H.
  - exists s. destruct s; auto.
  - destruct s as [|c s]; simpl in *; [lia|].
    destruct (IH s) as (rest & Hs & Hl); [lia|].
    exists rest. rewrite <- Hs, Hl. auto.
Qed.

(** ** Sorting *)

Lemma insert_perm {A : Type} (compareFn : A -> A -> Z) (x : A) (l : list A) :
  Permutation (insert compareFn x l) (x :: l).
Proof.
  induction l as [|y l IH]; simpl; [reflexivity|].
  destruct (compareFn x y <=? 0)%Z; [reflexivity|].
  rewrite IH. apply perm_swap.
Qed.

Lemma sort_perm {A : Type} (compareFn : A -> A -> Z) (l : list A) :
  Permutation (sort compareFn l) l.
Proof.
  induction l as [|x l IH]; simpl; [reflexivity|].
  rewrite insert_perm. now constructor.
Qed.

Lemma compare_le (x y : Note) :
  (byUpdatedDesc x y <=? 0)%Z = true <-> newest_first x y.
Proof. unfold byUpdatedDesc, newest_first. rewrite Z.leb_le. lia. Qed.

Lemma compare_gt (x y : Note) :
  (byUpdatedDesc x y <=? 0)%Z = false <-> (Note.updatedAt x < Note.updatedAt y)%Z.
Proof. unfold byUpdatedDesc. rewrite Z.leb_gt. lia. Qed.

Lemma insert_front (x : Note) (l : list Note) :
  Forall (newest_first x) l -> insert byUpdatedDesc x l = x :: l.
Proof.
  destruct l as [|y l]; simpl; [reflexivity|]. intros H.
  apply Forall_inv in H. apply compare_le in H. now rewrite H.
Qed.

Lemma insert_sorted (x : Note) (l : list Note) :
  StronglySorted newest_first l -> StronglySorted newest_first (insert byUpdatedDesc x l).
Proof.
  induction l as [|y l IH]; simpl; intros Hs.
  - repeat constructor.
  - apply StronglySorted_inv in Hs as [Hl Hy].
    destruct (byUpdatedDesc x y <=? 0)%Z eqn:E.
    + apply compare_le in E.
      constructor; [constructor; assumption|].
      constructor; [assumption|].
      eapply Forall_impl; [|exact Hy]. unfold newest_first in *. intros; lia.
    + apply compare_gt in E.
      constructor; [auto|].
      eapply Permutation_Forall; [symmetry; apply insert_perm|].
      constructor; [unfold newest_first; lia | assumption].
Qed.

Lemma sort_sorted (l : list Note) : StronglySorted newest_first (sort byUpdatedDesc l).
Proof.
  induction l as [|x l IH]; simpl; [constructor | now apply insert_sorted].
Qed.

(** A collection that is sorted already is left as it is. *)
Lemma sort_fixed (l : list Note) :
  StronglySorted newest_first l -> sort byUpdatedDesc l = l.
Proof.
  induction l as [|x l IH]; simpl; intros Hs; [reflexivity|].
  apply StronglySorted_inv in Hs as [Hl Hx].
  rewrite IH by assumption. now apply insert_front.
Qed.

Lemma filter_insert (keep : Note -> bool) (x : Note) (l : list Note) :
  StronglySorted newest_first l ->
  filter keep (insert byUpdatedDesc x l)
  = if keep x then insert byUpdatedDesc x (filter keep l) else filter keep l.
Proof.
  induction l as [|y l IH]; intros Hs.
  - simpl. destruct (keep x); reflexivity.
  - apply StronglySorted_inv in Hs as [Hl Hy]. simpl insert.
    destruct (byUpdatedDesc x y <=? 0)%Z eqn:E.
    + apply compare_le in E.
      change (filter keep (x :: y :: l))
        with (if keep x then x :: filter keep (y :: l) else filter keep (y :: l)).
      destruct (keep x); [|reflexivity].
      symmetry. apply insert_front.
      apply incl_Forall with (l1 := y :: l); [apply incl_filter|].
      constructor; [assumption|].
      eapply Forall_impl; [|exact Hy]. unfold newest_first in *. intros; lia.
    + simpl filter. rewrite IH by assumption.
      destruct (keep y), (keep x); try reflexivity.
      simpl insert. now rewrite E.
Qed.

(** The sort is stable, so dropping notes before or after it gives the
    same sequence. *)
Lemma filter_sort (keep : Note -> bool) (l : list Note) :
  filter keep (sort byUpdatedDesc l) = sort byUpdatedDesc (filter keep l).
Proof.
  induction l as [|x l IH]; simpl; [reflexivity|].
  rewrite filter_insert by apply sort_sorted.
  destruct (keep x); simpl; now rewrite IH.
Qed.

(** ** Rendering the list *)

Lemma sort_nil (l : list Note) : sort byUpdatedDesc l = [] -> l = [].
Proof.
  intros H. apply Permutation_nil. rewrite <- H. apply sort_perm.
Qed.

Lemma list_view_sort (current : option Note) (l : list Note) :
  list_view current (sort byUpdatedDesc l)
  = match l with
    | [] => empty_notes
    | _ :: _ => note_items (map (renderItem current) (sort byUpdatedDesc l))
    end.
Proof.
  destruct l as [|x l]; [reflexivity|].
  destruct (sort byUpdatedDesc (x :: l)) eqn:E; [|reflexivity].
  apply sort_nil in E. discriminate.
Qed.

Lemma renderNotesList_all (a : NotesApp) :
  renderNotesList None a
  = set_notesList (list_view (currentNote a) (sort byUpdatedDesc (notes a)))
      (set_notes (sort byUpdatedDesc (notes a)) a).
Proof.
  rewrite list_view_sort. unfold renderNotesList.
  destruct a as [l ? ? ? ? ? ? ? ? ? ? ? ? ?]; simpl.
  destruct l; reflexivity.
Qed.

Lemma renderNotesList_filtered (l : list Note) (a : NotesApp) :
  renderNotesList (Some l) a
  = set_notesList (list_view (currentNote a) (sort byUpdatedDesc l)) a.
Proof.
  rewrite list_view_sort. unfold renderNotesList. destruct l; reflexivity.
Qed.

Lemma filter_split (keep : Note -> bool) (l : list Note) :
  Permutation (filter keep l ++ filter (fun n => negb (keep n)) l) l.
Proof.
  induction l as [|x l IH]; simpl; [reflexivity|].
  destruct (keep x); simpl.
  - now constructor.
  - rewrite <- Permutation_middle. now constructor.
Qed.

Lemma searchNotes_blank (query : string) (a : NotesApp) :
  JsString.trim query = ""%string -> searchNotes query a = renderNotesList None a.
Proof.
  intros H. unfold searchNotes. now rewrite H.
Qed.

Lemma searchNotes_query (query : string) (a : NotesApp) :
  JsString.trim query <> ""%string ->
  searchNotes query a = renderNotesList (Some (filter (matches query) (notes a))) a.
Proof.
  intros H. unfold searchNotes.
  destruct (JsString.truthy (JsString.trim query)) eqn:E; [reflexivity|].
  apply truthy_false in E. contradiction.
Qed.

(** C4.  For every query, [searchNotes] renders a sequence of notes
    sorted by [updatedAt] descending.  For a blank query (empty once
    trimmed) it is the whole collection.  Otherwise it is the sorted
    collection without the notes that are no hit: a note is shown if
    and only if it is in the collection and its title or content
    contains the query case-insensitively, and the notes shown and the
    notes dropped together are the collection. *)
Theorem searchNotes_renders (query : string) (a : NotesApp) :
  exists shown : list Note,
    notesList (searchNotes query a) = list_view (currentNote a) shown
    /\ StronglySorted newest_first shown
    /\ (JsString.trim query = ""%string ->
        shown = sort byUpdatedDesc (notes a) /\ Permutation shown (notes a))
    /\ (JsString.trim query <> ""%string ->
        shown = filter (matches query) (sort byUpdatedDesc (notes a))
        /\ (forall note, In note shown <-> In note (notes a) /\ Hit query note)
        /\ exists dropped,
            Permutation (shown ++ dropped) (notes a)
            /\ Forall (fun note => ~ Hit query note) dropped).
Proof.
  destruct (string_dec (JsString.trim query) "") as [Hblank|Hquery].
  - exists (sort byUpdatedDesc (notes a)).
    rewrite searchNotes_blank, renderNotesList_all by assumption.
    repeat split; try contradiction; auto using sort_sorted, sort_perm.
  - exists (sort byUpdatedDesc (filter (matches query) (notes a))).
    rewrite searchNotes_query, renderNotesList_filtered by assumption.
    split; [reflexivity|]. split; [apply sort_sorted|].
    split; [intros; contradiction|]. intros _.
    split; [symmetry; apply filter_sort|]. split.
    + intros note.
      rewrite <- matches_Hit, <- filter_In.
      split; apply Permutation_in; [|symmetry]; apply sort_perm.
    + exists (filter (fun n => negb (matches query n)) (notes a)). split.
      * rewrite sort_perm. apply filter_split.
      * apply Forall_forall. intros note Hin.
        apply filter_In in Hin as [_ Hno]. rewrite <- matches_Hit.
        destruct (matches query note); [discriminate | congruence].
Qed.

(** A search makes no request and starts no timer; of the state it
    writes the list element and the collection only, and the collection
    keeps its notes.  With a query that is not blank the collection
    keeps its order too; with a blank one it is left sorted by
    [updatedAt] descending, which is the order it had when it was
    sorted before. *)
Lemma searchNotes_frame (query : string) (w : World) :
  exists (l : list Note) (view : NotesList),
    step (input_searchInput query) w
    = (set_app (set_notesList view (set_notes l (app w))) w, [])
    /\ Permutation l (notes (app w))
    /\ (JsString.trim query <> ""%string -> l = notes (app w))
    /\ (JsString.trim query = ""%string -> l = sort byUpdatedDesc (notes (app w)))
    /\ (StronglySorted newest_first (notes (app w)) -> l = notes (app w)).
Proof.
  destruct (string_dec (JsString.trim query) "") as [Hblank|Hquery].
  - exists (sort byUpdatedDesc (notes (app w))),
      (list_view (currentNote (app w)) (sort byUpdatedDesc (notes (app w)))).
    simpl. rewrite searchNotes_blank, renderNotesList_all by assumption.
    repeat split; try contradiction; auto using sort_perm, sort_fixed.
  - exists (notes (app w)),
      (list_view (currentNote (app w))
         (sort byUpdatedDesc (filter (matches query) (notes (app w))))).
    simpl. rewrite searchNotes_query, renderNotesList_filtered by assumption.
    repeat split; try contradiction; auto.
Qed.

(** C9.  The paragraph of a list item is the preview of its note.  When
    the content is longer than 100 characters the preview is the
    escaped first 100 characters and then three dots; when it has 100
    characters or fewer the preview is the whole escaped content and
    nothing after it. *)
Theorem preview_ellipsis (current : option Note) (note : Note) :
  p (renderItem current note) = preview note
  /\ ((100 < String.length (Note.content note))%nat ->
      exists first rest,
        Note.content note = (first ++ rest)%string
        /\ String.length first = 100%nat
        /\ rest <> ""%string
        /\ preview note = (escapeHtml first ++ "...")%string)
  /\ ((String.length (Note.content note) <= 100)%nat ->
      preview note = escapeHtml (Note.content note)).
Proof.
  split; [reflexivity|]. unfold preview, JsString.substring.
  change (Nat.min 0 100) with 0%nat. change (Nat.max 0 100 - 0)%nat with 100%nat.
  split; intros H.
  - destruct (substring_prefix 100 (Note.content note)) as (rest & Hs & Hl); [lia|].
    exists (String.substring 0 100 (Note.content note)), rest.
    repeat split; try assumption.
    + intros ->. rewrite Hs in H at 1.
      rewrite length_append, Hl in H. simpl in H. lia.
    + apply Nat.ltb_lt in H. now rewrite H.
  - rewrite substring_all by assumption.
    apply Nat.nlt_ge, Nat.ltb_nlt in H. rewrite H.
    clear H. induction (escapeHtml (Note.content note)); simpl; congruence.
Qed.

(** ** The editor state *)

Lemma editorState_Editing (a : NotesApp) (note : Note) :
  editorState a = Some (Editing note) <-> currentNote a = Some note /\ isEditing a = true.
Proof.
  unfold editorState. destruct (currentNote a), (isEditing a); split;
    try discriminate; try (intros [? ?]; discriminate).
  - intros H; injection H as ->; auto.
  - intros [H _]; injection H as ->; auto.
Qed.

Lemma editorState_unbound (a : NotesApp) :
  editorState a = Some Closed \/ editorState a = Some Creating <-> currentNote a = None.
Proof.
  unfold editorState. destruct (currentNote a), (isEditing a); split;
    intros; try discriminate; auto; destruct H; discriminate.
Qed.

(** ** Saving *)

Lemma saveNote_request_invalid (silent : bool) (a : NotesApp) :
  JsString.trim (noteTitle_value a) = ""%string
  \/ JsString.trim (noteContent_value a) = ""%string ->
  saveNote_request silent a
  = (if silent then a else showError "Title and content are required" a, []).
Proof.
  intros H. unfold saveNote_request.
  assert (negb (JsString.truthy (JsString.trim (noteTitle_value a)))
          || negb (JsString.truthy (JsString.trim (noteContent_value a))) = true) as ->.
  { apply orb_true_iff. rewrite !negb_true_iff, !truthy_false. exact H. }
  destruct silent; reflexivity.
Qed.

Lemma saveNote_request_valid (silent : bool) (a : NotesApp) :
  JsString.trim (noteTitle_value a) <> ""%string ->
  JsString.trim (noteContent_value a) <> ""%string ->
  saveNote_request silent a
  = (if silent then a else showLoading true a,
     [fetch (match currentNote a with
             | Some cur => mkRequest (note_url cur) PUT
                             (Some (JsString.trim (noteTitle_value a),
                                    JsString.trim (noteContent_value a)))
             | None => mkRequest "/api/notes" POST
                         (Some (JsString.trim (noteTitle_value a),
                                JsString.trim (noteContent_value a)))
             end)]).
Proof.
  intros Ht Hc. unfold saveNote_request.
  assert (negb (JsString.truthy (JsString.trim (noteTitle_value a)))
          || negb (JsString.truthy (JsString.trim (noteContent_value a))) = false) as ->.
  { apply orb_false_iff. rewrite !negb_false_iff.
    split; apply not_false_is_true; rewrite truthy_false; assumption. }
  destruct silent; reflexivity.
Qed.

(** C5.  When the title or the content is empty once trimmed,
    [saveNote] makes no request.  A silent save leaves the state as it
    was; a save that is not silent adds the error notification "Title
    and content are required" and changes nothing else. *)
Theorem saveNote_invalid (silent : bool) (r : Fetched Note) (a : NotesApp) :
  JsString.trim (noteTitle_value a) = ""%string
  \/ JsString.trim (noteContent_value a) = ""%string ->
  snd (saveNote silent r a) = []
  /\ fst (saveNote silent r a)
     = if silent then a
       else set_notifications
              (notifications a ++ [("Title and content are required", "error")]) a.
Proof.
  intros H. unfold saveNote. rewrite saveNote_request_invalid by assumption.
  destruct silent; split; reflexivity.
Qed.

(** The collection after the continuation of a save that succeeded. *)
Lemma saveNote_response_notes (silent : bool) (status : Z) (saved : Note) (a : NotesApp) :
  ok status = true ->
  notes (saveNote_response silent (response status (Some saved)) a)
  = sort byUpdatedDesc
      match currentNote a with
      | Some cur =>
          match findIndex (id_is (Note.id cur)) (notes a) with
          | Some index => assign (notes a) index saved
          | None => notes a
          end
      | None => notes a ++ [saved]
      end.
Proof.
  intros Hok. unfold saveNote_response. rewrite Hok. simpl negb. cbv iota.
  rewrite renderNotesList_all.
  destruct silent, (currentNote a) as [cur|];
    [destruct (findIndex (id_is (Note.id cur)) (notes a))| |
     destruct (findIndex (id_is (Note.id cur)) (notes a))|]; reflexivity.
Qed.

Lemma saveNote_response_editor (silent : bool) (status : Z) (saved : Note) (a : NotesApp) :
  ok status = true ->
  currentNote (saveNote_response silent (response status (Some saved)) a) = Some saved
  /\ isEditing (saveNote_response silent (response status (Some saved)) a) = isEditing a.
Proof.
  intros Hok. unfold saveNote_response. rewrite Hok. simpl negb. cbv iota.
  rewrite renderNotesList_all.
  destruct silent, (currentNote a) as [cur|];
    [destruct (findIndex (id_is (Note.id cur)) (notes a))| |
     destruct (findIndex (id_is (Note.id cur)) (notes a))|]; split; reflexivity.
Qed.

Lemma filter_id_absent (noteId : string) (l : list Note) :
  ~ In noteId (map Note.id l) -> filter (id_is noteId) l = [].
Proof.
  induction l as [|x l IH]; simpl; intros H; [reflexivity|].
  unfold id_is at 1. destruct (String.eqb_spec (Note.id x) noteId) as [E|E].
  - exfalso; auto.
  - apply IH. tauto.
Qed.

Lemma findIndex_present (noteId : string) (l : list Note) :
  In noteId (map Note.id l) -> exists index, findIndex (id_is noteId) l = Some index.
Proof.
  induction l as [|x l IH]; simpl; intros H; [contradiction|].
  destruct (id_is noteId x) eqn:E; [eauto|].
  destruct H as [H|H].
  - unfold id_is in E. rewrite H, String.eqb_refl in E. discriminate.
  - destruct (IH H) as [index ->]. simpl. eauto.
Qed.

(** Writing the payload over the slot [findIndex] names leaves it the
    only note of that identifier. *)
Lemma filter_assign_same (saved : Note) (l : list Note) (index : nat) :
  NoDup (map Note.id l) ->
  findIndex (id_is (Note.id saved)) l = Some index ->
  filter (id_is (Note.id saved)) (assign l index saved) = [saved].
Proof.
  revert index; induction l as [|x l IH]; simpl; intros index Hnd Hfind; [discriminate|].
  apply NoDup_cons_iff in Hnd as [Hx Hnd].
  destruct (id_is (Note.id saved) x) eqn:E.
  - injection Hfind as <-. simpl. unfold id_is at 1. rewrite String.eqb_refl.
    f_equal. apply filter_id_absent.
    unfold id_is in E. apply String.eqb_eq in E. congruence.
  - destruct (findIndex (id_is (Note.id saved)) l) as [i|] eqn:Ei; [|discriminate].
    injection Hfind as <-. simpl. rewrite E. now apply IH.
Qed.

(** The notes of other identifiers pass through the assignment. *)
Lemma filter_assign_others (noteId : string) (saved : Note) (l : list Note) (index : nat) :
  Note.id saved = noteId ->
  findIndex (id_is noteId) l = Some index ->
  filter (other_than noteId) (assign l index saved) = filter (other_than noteId) l.
Proof.
  intros Hid. assert (other_than noteId saved = false) as Hsaved.
  { unfold other_than, id_is. now rewrite Hid, String.eqb_refl. }
  revert index; induction l as [|x l IH]; simpl; intros index Hfind; [discriminate|].
  unfold other_than at 2. destruct (id_is noteId x) eqn:E.
  - injection Hfind as <-. simpl. now rewrite Hsaved.
  - destruct (findIndex (id_is noteId) l) as [i|] eqn:Ei; [|discriminate].
    injection Hfind as <-. simpl. unfold other_than at 1. rewrite E. simpl.
    f_equal. now apply IH.
Qed.

(** X23.  A save whose answer is handled before any other event, in
    the state its request left: in a consistent state editing the note
    [cur], with a title and a content that are not empty once trimmed,
    when the server answers with a success status and the note [saved]
    of the same identifier, one PUT for that identifier was sent,
    [saved] is the only note of that identifier in the collection, and
    the editor is editing [saved]. *)
Theorem saveNote_updates
  (silent : bool) (status : Z) (cur saved : Note) (a : NotesApp) :
  editorState a = Some (Editing cur) ->
  JsString.trim (noteTitle_value a) <> ""%string ->
  JsString.trim (noteContent_value a) <> ""%string ->
  consistent a ->
  ok status = true ->
  Note.id saved = Note.id cur ->
  filter (id_is (Note.id cur))
    (notes (fst (saveNote silent (response status (Some saved)) a))) = [saved]
  /\ editorState (fst (saveNote silent (response status (Some saved)) a))
     = Some (Editing saved)
  /\ snd (saveNote silent (response status (Some saved)) a)
     = [fetch (mkRequest (note_url cur) PUT
                 (Some (JsString.trim (noteTitle_value a),
                        JsString.trim (noteContent_value a))))].
Proof.
  intros Hed Ht Hc [Hnd Hin] Hok Hid.
  apply editorState_Editing in Hed as [Hcur Hflag].
  unfold saveNote. rewrite saveNote_request_valid by assumption.
  rewrite Hcur. simpl awaits. cbv iota. simpl fst. simpl snd.
  set (a1 := if silent then a else showLoading true a).
  assert (notes a1 = notes a /\ currentNote a1 = Some cur /\ isEditing a1 = true)
    as (Hn1 & Hc1 & He1) by (subst a1; destruct silent; auto).
  split; [|split; [|reflexivity]].
  - rewrite saveNote_response_notes, Hc1, Hn1 by assumption.
    destruct (findIndex_present (Note.id cur) (notes a)) as [index Hfind].
    { apply in_map, Hin, Hcur. }
    rewrite Hfind, filter_sort, <- Hid.
    rewrite <- Hid in Hfind. now rewrite filter_assign_same.
  - apply editorState_Editing.
    destruct (saveNote_response_editor silent status saved a1 Hok) as [-> ->]. auto.
Qed.

(** ** Deleting *)

Lemma deleteNote_unbound (confirmed : bool) (r : Fetched unit) (a : NotesApp) :
  currentNote a = None -> deleteNote confirmed r a = (a, []).
Proof.
  intros H. unfold deleteNote, deleteNote_request. now rewrite H.
Qed.

Lemma deleteNote_success (status : Z) (body : option unit) (cur : Note) (a : NotesApp) :
  currentNote a = Some cur ->
  ok status = true ->
  snd (deleteNote true (response status body) a)
  = [confirm confirm_delete; fetch (mkRequest (note_url cur) DELETE None)]
  /\ notes (fst (deleteNote true (response status body) a))
     = sort byUpdatedDesc (filter (other_than (Note.id cur)) (notes a))
  /\ currentNote (fst (deleteNote true (response status body) a)) = None
  /\ isEditing (fst (deleteNote true (response status body) a)) = false
  /\ emptyState_display (fst (deleteNote true (response status body) a)) = "flex"%string
  /\ noteForm_display (fst (deleteNote true (response status body) a)) = "none"%string.
Proof.
  intros Hcur Hok. unfold deleteNote, deleteNote_request. rewrite Hcur.
  simpl negb. cbv iota. simpl awaits. cbv iota. simpl fst. simpl snd.
  unfold deleteNote_response. rewrite Hok. simpl negb. cbv iota.
  simpl currentNote. rewrite Hcur, renderNotesList_all.
  repeat split; reflexivity.
Qed.

(** X24.  A delete whose answer is handled before any other event, in
    the state its request left: in a state editing the note [cur], when
    the user confirms and the server answers with a success status, no
    note of that identifier is left in the collection and the editor is
    closed, with the placeholder shown.  In a state that is closed or
    creating, a delete asks nothing, requests nothing and leaves the
    state as it was. *)
Theorem deleteNote_removes (a : NotesApp) :
  (forall cur status body,
      editorState a = Some (Editing cur) ->
      ok status = true ->
      (forall note,
          In note (notes (fst (deleteNote true (response status body) a))) ->
          Note.id note <> Note.id cur)
      /\ editorState (fst (deleteNote true (response status body) a)) = Some Closed
      /\ emptyState_display (fst (deleteNote true (response status body) a)) = "flex"%string
      /\ noteForm_display (fst (deleteNote true (response status body) a)) = "none"%string)
  /\ (forall confirmed r,
         editorState a = Some Closed \/ editorState a = Some Creating ->
         deleteNote confirmed r a = (a, [])).
Proof.
  split.
  - intros cur status body Hed Hok.
    apply editorState_Editing in Hed as [Hcur _].
    destruct (deleteNote_success status body cur a Hcur Hok)
      as (_ & Hnotes & Hnone & Hflag & Hempty & Hform).
    repeat split; try assumption.
    + intros note Hin. rewrite Hnotes in Hin.
      apply (Permutation_in _ (sort_perm _ _)) in Hin.
      apply filter_In in Hin as [_ Hother].
      unfold other_than, id_is in Hother.
      apply negb_true_iff, String.eqb_neq in Hother. exact Hother.
    + unfold editorState. now rewrite Hnone, Hflag.
  - intros confirmed r H. apply deleteNote_unbound, editorState_unbound, H.
Qed.

(** Taking the one note of an identifier out of a collection. *)
Lemma filter_other_than (cur : Note) (l : list Note) :
  NoDup (map Note.id l) -> In cur l ->
  Permutation (cur :: filter (other_than (Note.id cur)) l) l.
Proof.
  induction l as [|x l IH]; simpl; intros Hnd Hin; [contradiction|].
  apply NoDup_cons_iff in Hnd as [Hx Hnd]. unfold other_than at 1, id_is.
  destruct Hin as [->|Hin].
  - rewrite String.eqb_refl. simpl. constructor.
    replace (filter (other_than (Note.id cur)) l) with l; [reflexivity|].
    symmetry. apply forallb_filter_id, forallb_forall. intros n Hn.
    unfold other_than, id_is. apply negb_true_iff, String.eqb_neq.
    intros E. apply Hx. rewrite <- E. now apply in_map.
  - destruct (String.eqb_spec (Note.id x) (Note.id cur)) as [E|E]; simpl.
    + exfalso. apply Hx. rewrite E. now apply in_map.
    + rewrite perm_swap. constructor. now apply IH.
Qed.

(** X25.  For a save or a delete whose answer is handled before any
    other event, in a state editing the note [cur]: a save that the
    server answers with a success status and a note of the same
    identifier leaves the notes of every other identifier as they were;
    a confirmed delete that the server answers with a success status
    leaves exactly the notes of the other identifiers, and in a
    consistent state that is the collection without [cur] alone.  The
    collection is compared as a collection: [renderNotesList] sorts it
    in place. *)
Theorem others_unchanged (cur : Note) (a : NotesApp) :
  editorState a = Some (Editing cur) ->
  (forall silent status saved,
      JsString.trim (noteTitle_value a) <> ""%string ->
      JsString.trim (noteContent_value a) <> ""%string ->
      ok status = true ->
      Note.id saved = Note.id cur ->
      Permutation
        (filter (other_than (Note.id cur))
           (notes (fst (saveNote silent (response status (Some saved)) a))))
        (filter (other_than (Note.id cur)) (notes a)))
  /\ (forall status body,
         ok status = true ->
         Permutation
           (notes (fst (deleteNote true (response status body) a)))
           (filter (other_than (Note.id cur)) (notes a))
         /\ (consistent a ->
             Permutation
               (cur :: notes (fst (deleteNote true (response status body) a)))
               (notes a))).
Proof.
  intros Hed. apply editorState_Editing in Hed as [Hcur Hflag]. split.
  - intros silent status saved Ht Hc Hok Hid.
    unfold saveNote. rewrite saveNote_request_valid by assumption.
    simpl awaits. cbv iota. simpl fst.
    set (a1 := if silent then a else showLoading true a).
    assert (notes a1 = notes a /\ currentNote a1 = Some cur) as [Hn1 Hc1]
      by (subst a1; destruct silent; auto).
    rewrite saveNote_response_notes, Hc1, Hn1, filter_sort, sort_perm by assumption.
    destruct (findIndex (id_is (Note.id cur)) (notes a)) as [index|] eqn:Hfind;
      [|reflexivity].
    now rewrite (filter_assign_others _ saved _ index).
  - intros status body Hok.
    destruct (deleteNote_success status body cur a Hcur Hok) as (_ & -> & _).
    split; [apply sort_perm|].
    intros [Hnd Hin]. rewrite sort_perm. apply filter_other_than; auto.
Qed.

(** ** Cancelling *)

(** C8.  In a state editing [note], [cancelEdit] puts the title and the
    content of [note] back into the fields and leaves the editor as it
    was: still editing [note], the form and the placeholder as shown
    before, the collection untouched.  In a state creating a note it
    closes the editor: the placeholder is shown and the form hidden. *)
Theorem cancelEdit_reverts (a : NotesApp) :
  (forall note,
      editorState a = Some (Editing note) ->
      noteTitle_value (cancelEdit a) = Note.title note
      /\ noteContent_value (cancelEdit a) = Note.content note
      /\ editorState (cancelEdit a) = Some (Editing note)
      /\ noteForm_display (cancelEdit a) = noteForm_display a
      /\ emptyState_display (cancelEdit a) = emptyState_display a
      /\ notes (cancelEdit a) = notes a)
  /\ (editorState a = Some Creating ->
      editorState (cancelEdit a) = Some Closed
      /\ emptyState_display (cancelEdit a) = "flex"%string
      /\ noteForm_display (cancelEdit a) = "none"%string).
Proof.
  split.
  - intros note Hed. pose proof Hed as Hstate.
    apply editorState_Editing in Hed as [Hcur Hflag].
    unfold cancelEdit. rewrite Hcur. repeat split.
    unfold editorState in *. simpl. exact Hstate.
  - intros Hed.
    assert (currentNote a = None) as Hcur by (apply editorState_unbound; auto).
    unfold cancelEdit. rewrite Hcur. repeat split.
Qed.

(** ** The auto-save timer *)

Lemma autoSave_restarts (w : World) :
  one_timer w ->
  timers (autoSave w) = [(nextTimer w, (clock w + 2000)%N)]
  /\ saveTimeout (autoSave w) = Some (nextTimer w)
  /\ app (autoSave w) = app w
  /\ clock (autoSave w) = clock w.
Proof.
  intros [Hnone | (h & due & Hone & Hvar)]; unfold autoSave, clearTimeout, setTimeout.
  - destruct (saveTimeout w); simpl; rewrite Hnone; repeat split.
  - rewrite Hvar. simpl. rewrite Hone. simpl. rewrite Nat.eqb_refl. repeat split.
Qed.

Lemma one_timer_autoSave (w : World) : one_timer w -> one_timer (autoSave w).
Proof.
  intros H. destruct (autoSave_restarts w H) as (Ht & Hv & _).
  right. eauto.
Qed.

Lemma step_one_timer (e : Event) (w : World) : one_timer w -> one_timer (fst (step e w)).
Proof.
  intros H. destruct e; simpl; try exact H.
  - destruct (saveNote false r (app w)); exact H.
  - destruct (deleteNote confirmed r (app w)); exact H.
  - apply one_timer_autoSave, H.
  - apply one_timer_autoSave, H.
  - destruct (fire _ r (app w)) as [a effects]. simpl.
    destruct H as [Hnone | (h & due & Hone & Hvar)]; unfold one_timer; simpl.
    + rewrite Hnone. auto.
    + rewrite Hone. simpl. destruct (is_due (clock w + ms) (h, due)); simpl; eauto.
Qed.

Lemma run_cons (e : Event) (events : list Event) (w : World) :
  run (e :: events) w
  = (fst (run events (fst (step e w))), snd (step e w) :: snd (run events (fst (step e w)))).
Proof.
  simpl. destruct (step e w) as [w1 effects]. simpl.
  destruct (run events w1); reflexivity.
Qed.

Lemma run_one_timer (events : list Event) (w : World) :
  one_timer w -> one_timer (fst (run events w)).
Proof.
  revert w; induction events as [|e events IH]; intros w H; [exact H|].
  rewrite run_cons. simpl. apply IH, step_one_timer, H.
Qed.

Lemma autoSave_callback_editing (r : Fetched Note) (note : Note) (a : NotesApp) :
  editorState a = Some (Editing note) -> autoSave_callback r a = saveNote true r a.
Proof.
  intros H. apply editorState_Editing in H as [Hcur Hflag].
  unfold autoSave_callback. now rewrite Hcur, Hflag.
Qed.

Lemma autoSave_callback_unbound (r : Fetched Note) (a : NotesApp) :
  editorState a = Some Closed \/ editorState a = Some Creating ->
  autoSave_callback r a = (a, []).
Proof.
  intros H. apply editorState_unbound in H.
  unfold autoSave_callback. rewrite H. now rewrite andb_false_r.
Qed.

(** The step of a world whose one timer is due. *)
Lemma step_elapse_due (ms : N) (r : Fetched Note) (h : nat) (due : N) (w : World) :
  timers w = [(h, due)] ->
  (due <= clock w + ms)%N ->
  step (elapse ms r) w
  = (mkWorld (fst (autoSave_callback r (app w))) (saveTimeout w) []
       (clock w + ms)%N (nextTimer w),
     snd (autoSave_callback r (app w))).
Proof.
  intros Hone Hdue. simpl. rewrite Hone. simpl. unfold is_due. simpl.
  apply N.leb_le in Hdue. rewrite Hdue. simpl.
  destruct (autoSave_callback r (app w)) as [a effects]. simpl.
  now rewrite app_nil_r.
Qed.

Lemma step_elapse_early (ms : N) (r : Fetched Note) (h : nat) (due : N) (w : World) :
  timers w = [(h, due)] ->
  (clock w + ms < due)%N ->
  step (elapse ms r) w
  = (mkWorld (app w) (saveTimeout w) [(h, due)] (clock w + ms)%N (nextTimer w), []).
Proof.
  intros Hone Hearly. simpl. rewrite Hone. simpl. unfold is_due. simpl.
  apply N.leb_gt in Hearly. rewrite Hearly. reflexivity.
Qed.

(** C2, as amended.  In every world a run of events reaches from the
    start:
    - at most one auto-save timer is pending;
    - an edit of the title or of the content, in any editor state,
      makes no request, puts the value into its field and leaves
      exactly one timer pending, a fresh one due 2000 ms later;
    - when the pending timer elapses while a note is being edited, the
      timer is gone and what happens is one call [saveNote(true)] on
      the state of that moment;
    - when it elapses while the editor is closed or creating, the timer
      is gone and nothing else happens;
    - before it is due nothing happens;
    - an edit of the content while a note is being edited, followed by
      2000 ms without events, ends in exactly one request, the PUT of
      the title and the content then in the fields (when neither is
      empty once trimmed), and no timer pending. *)
Theorem autoSave_debounce
  (page : NotesApp) (r0 : Fetched (list Note)) (events : list Event) :
  let w := fst (run events (start page r0)) in
  (List.length (timers w) <= 1)%nat
  /\ (forall value,
         snd (step (input_noteTitle value) w) = []
         /\ noteTitle_value (app (fst (step (input_noteTitle value) w))) = value
         /\ timers (fst (step (input_noteTitle value) w))
            = [(nextTimer w, (clock w + 2000)%N)]
         /\ snd (step (input_noteContent value) w) = []
         /\ noteContent_value (app (fst (step (input_noteContent value) w))) = value
         /\ timers (fst (step (input_noteContent value) w))
            = [(nextTimer w, (clock w + 2000)%N)])
  /\ (forall h due ms r,
         timers w = [(h, due)] ->
         (due <= clock w + ms)%N ->
         timers (fst (step (elapse ms r) w)) = []
         /\ (forall note,
                editorState (app w) = Some (Editing note) ->
                (app (fst (step (elapse ms r) w)), snd (step (elapse ms r) w))
                = saveNote true r (app w))
         /\ (editorState (app w) = Some Closed \/ editorState (app w) = Some Creating ->
             app (fst (step (elapse ms r) w)) = app w
             /\ snd (step (elapse ms r) w) = []))
  /\ (forall h due ms r,
         timers w = [(h, due)] ->
         (clock w + ms < due)%N ->
         app (fst (step (elapse ms r) w)) = app w
         /\ snd (step (elapse ms r) w) = []
         /\ timers (fst (step (elapse ms r) w)) = [(h, due)])
  /\ (forall note value r,
         editorState (app w) = Some (Editing note) ->
         JsString.trim (noteTitle_value (app w)) <> ""%string ->
         JsString.trim value <> ""%string ->
         snd (run [input_noteContent value; elapse 2000 r] w)
         = [[]; [fetch (mkRequest (note_url note) PUT
                          (Some (JsString.trim (noteTitle_value (app w)),
                                 JsString.trim value)))]]
         /\ timers (fst (run [input_noteContent value; elapse 2000 r] w)) = []).
Proof.
  intros w.
  assert (one_timer w) as Hinv by (apply run_one_timer; left; reflexivity).
  split; [|split; [|split; [|split]]].
  - destruct Hinv as [-> | (h & due & -> & _)]; simpl; lia.
  - intros value. cbn [step fst snd].
    destruct (autoSave_restarts
                (set_app (set_noteTitle_value value (app w)) w) Hinv)
      as (Ht1 & _ & Ha1 & _).
    destruct (autoSave_restarts
                (set_app (set_noteContent_value value (app w)) w) Hinv)
      as (Ht2 & _ & Ha2 & _).
    rewrite Ht1, Ht2, Ha1, Ha2. repeat split.
  - intros h due ms r Hone Hdue. rewrite (step_elapse_due ms r h due w Hone Hdue).
    simpl. split; [reflexivity|]. split.
    + intros note Hed. rewrite (autoSave_callback_editing r note _ Hed).
      now destruct (saveNote true r (app w)).
    + intros Hed. rewrite (autoSave_callback_unbound r _ Hed). auto.
  - intros h due ms r Hone Hearly. rewrite (step_elapse_early ms r h due w Hone Hearly).
    auto.
  - intros note value r Hed Ht Hv.
    set (w1 := set_app (set_noteContent_value value (app w)) w).
    assert (step (input_noteContent value) w = (autoSave w1, [])) as Hstep
        by reflexivity.
    rewrite !run_cons, Hstep. cbn [run fst snd].
    destruct (autoSave_restarts w1 Hinv) as (Ht1 & _ & Ha1 & Hc1).
    assert (clock (autoSave w1) + 2000 = clock w + 2000)%N as Hclock
        by (rewrite Hc1; reflexivity).
    rewrite (step_elapse_due 2000 r (nextTimer w) (clock w + 2000)%N (autoSave w1));
      [|exact Ht1|rewrite Hclock; reflexivity].
    rewrite Ha1. cbn [fst snd timers].
    assert (editorState (app w1) = Some (Editing note)) as Hed1 by exact Hed.
    rewrite (autoSave_callback_editing r note _ Hed1).
    apply editorState_Editing in Hed as [Hcur _].
    unfold saveNote. rewrite saveNote_request_valid by assumption.
    cbn [fst snd]. change (currentNote (app w1)) with (currentNote (app w)).
    rewrite Hcur. auto.
Qed.

(** ** Loading *)

(** The status of the response is never read: whatever it is, a body
    that is a JSON array becomes the collection and no error is
    reported. *)
Lemma loadNotes_status_unread (status : Z) (l : list Note) (a : NotesApp) :
  notes (fst (loadNotes (response status (Some l)) a)) = sort byUpdatedDesc l
  /\ notifications (fst (loadNotes (response status (Some l)) a)) = notifications a
  /\ console (fst (loadNotes (response status (Some l)) a)) = console a
  /\ snd (loadNotes (response status (Some l)) a) = [fetch (mkRequest "/api/notes" GET None)].
Proof.
  unfold loadNotes, loadNotes_request, loadNotes_response. cbn [fst snd].
  rewrite renderNotesList_all. repeat split.
Qed.

(** A [fetch] that rejects, or a body that is not JSON, leaves the
    collection as the constructor made it, reports the error once and
    asks nothing more of the server. *)
Lemma loadNotes_failure (r : Fetched (list Note)) (page : NotesApp) :
  r = rejected \/ (exists status, r = response status None) ->
  notes (fst (loadNotes r (constructor page))) = []
  /\ notifications (fst (loadNotes r (constructor page)))
     = notifications page ++ [("Failed to load notes", "error")]
  /\ snd (loadNotes r (constructor page)) = [fetch (mkRequest "/api/notes" GET None)].
Proof.
  intros [-> | [status ->]]; repeat split.
Qed.

(** ** Consistency is kept *)

Lemma consistent_perm (a a' : NotesApp) :
  Permutation (notes a') (notes a) ->
  currentNote a' = currentNote a ->
  consistent a -> consistent a'.
Proof.
  intros Hp Hc [Hnd Hin]. split.
  - eapply Permutation_NoDup; [|exact Hnd]. symmetry. now apply Permutation_map.
  - intros cur Hcur. rewrite Hc in Hcur.
    eapply Permutation_in; [symmetry; exact Hp|]. auto.
Qed.

Lemma consistent_unbound (a : NotesApp) :
  NoDup (map Note.id (notes a)) -> currentNote a = None -> consistent a.
Proof. intros Hnd Hc. split; [assumption|]. intros cur H. congruence. Qed.

Lemma map_id_assign (saved : Note) (l : list Note) (index : nat) :
  findIndex (id_is (Note.id saved)) l = Some index ->
  map Note.id (assign l index saved) = map Note.id l
  /\ In saved (assign l index saved).
Proof.
  revert index; induction l as [|x l IH]; simpl; intros index Hfind; [discriminate|].
  destruct (id_is (Note.id saved) x) eqn:E.
  - injection Hfind as <-. simpl. unfold id_is in E. apply String.eqb_eq in E.
    rewrite E. auto.
  - destruct (findIndex (id_is (Note.id saved)) l) as [i|]; [|discriminate].
    injection Hfind as <-. simpl. destruct (IH i eq_refl) as [-> Hin]. auto.
Qed.

(** A save either leaves the collection and the bound note alone, or
    it succeeded and wrote the payload. *)
Lemma saveNote_cases (silent : bool) (r : Fetched Note) (a : NotesApp) :
  (notes (fst (saveNote silent r a)) = notes a
   /\ currentNote (fst (saveNote silent r a)) = currentNote a)
  \/ (exists status saved,
         r = response status (Some saved)
         /\ currentNote (fst (saveNote silent r a)) = Some saved
         /\ notes (fst (saveNote silent r a))
            = sort byUpdatedDesc
                match currentNote a with
                | Some cur =>
                    match findIndex (id_is (Note.id cur)) (notes a) with
                    | Some index => assign (notes a) index saved
                    | None => notes a
                    end
                | None => notes a ++ [saved]
                end).
Proof.
  unfold saveNote, saveNote_request.
  destruct (negb (JsString.truthy (JsString.trim (noteTitle_value a)))
            || negb (JsString.truthy (JsString.trim (noteContent_value a)))).
  { left. destruct silent; auto. }
  cbn [awaits existsb is_fetch orb fst snd].
  set (a1 := if negb silent then showLoading true a else a).
  assert (notes a1 = notes a /\ currentNote a1 = currentNote a) as [Hn1 Hc1]
    by (subst a1; destruct silent; auto).
  destruct r as [|status [saved|]].
  - left. destruct silent; auto.
  - destruct (ok status) eqn:Hok.
    + right. exists status, saved. split; [reflexivity|]. split.
      * apply saveNote_response_editor, Hok.
      * rewrite saveNote_response_notes, Hc1, Hn1 by assumption. reflexivity.
    + left. unfold saveNote_response. rewrite Hok. destruct silent; auto.
  - left. unfold saveNote_response. destruct (ok status), silent; auto.
Qed.

Lemma saveNote_consistent (silent : bool) (r : Fetched Note) (a : NotesApp) :
  consistent a -> answers a r -> consistent (fst (saveNote silent r a)).
Proof.
  intros Hcons Hans.
  destruct (saveNote_cases silent r a) as [[Hn Hc] | (status & saved & -> & Hc & Hn)].
  - apply (consistent_perm a); [now rewrite Hn | assumption | assumption].
  - destruct Hcons as [Hnd Hin]. unfold answers in Hans.
    destruct (currentNote a) as [cur|] eqn:Hcur.
    + destruct (findIndex_present (Note.id cur) (notes a)) as [index Hfind].
      { apply in_map, Hin. reflexivity. }
      rewrite Hfind in Hn. rewrite <- Hans in Hfind.
      destruct (map_id_assign saved _ _ Hfind) as [Hmap Hsaved].
      split.
      * rewrite Hn. eapply Permutation_NoDup.
        { symmetry. apply Permutation_map, sort_perm. }
        now rewrite Hmap.
      * intros n Hb. rewrite Hc in Hb. injection Hb as <-. rewrite Hn.
        eapply Permutation_in; [symmetry; apply sort_perm | exact Hsaved].
    + split.
      * rewrite Hn. eapply Permutation_NoDup.
        { symmetry. apply Permutation_map, sort_perm. }
        rewrite map_app. simpl.
        eapply Permutation_NoDup; [apply Permutation_cons_append|].
        now constructor.
      * intros n Hb. rewrite Hc in Hb. injection Hb as <-. rewrite Hn.
        eapply Permutation_in; [symmetry; apply sort_perm|].
        apply in_or_app. right. now left.
Qed.

Lemma NoDup_map_filter (keep : Note -> bool) (l : list Note) :
  NoDup (map Note.id l) -> NoDup (map Note.id (filter keep l)).
Proof.
  induction l as [|x l IH]; simpl; intros H; [constructor|].
  apply NoDup_cons_iff in H as [Hx Hnd].
  destruct (keep x); simpl; [|auto].
  constructor; [|auto]. intros Hin. apply Hx.
  apply in_map_iff in Hin as (n & Hid & Hn). apply filter_In in Hn as [Hn _].
  rewrite <- Hid. now apply in_map.
Qed.

(** A delete either leaves the collection and the bound note alone,
    or it succeeded and took the notes of the bound identifier out. *)
Lemma deleteNote_cases (confirmed : bool) (r : Fetched unit) (a : NotesApp) :
  (notes (fst (deleteNote confirmed r a)) = notes a
   /\ currentNote (fst (deleteNote confirmed r a)) = currentNote a)
  \/ (exists cur,
         currentNote a = Some cur
         /\ currentNote (fst (deleteNote confirmed r a)) = None
         /\ notes (fst (deleteNote confirmed r a))
            = sort byUpdatedDesc (filter (other_than (Note.id cur)) (notes a))).
Proof.
  destruct (currentNote a) as [cur|] eqn:Hcur.
  2: { left. rewrite deleteNote_unbound by assumption. auto. }
  destruct confirmed.
  2: { left. unfold deleteNote, deleteNote_request. rewrite Hcur. auto. }
  destruct r as [|status body].
  - left. unfold deleteNote, deleteNote_request. rewrite Hcur. auto.
  - destruct (ok status) eqn:Hok.
    + right. exists cur.
      destruct (deleteNote_success status body cur a Hcur Hok) as (_ & Hn & Hc & _).
      auto.
    + left. unfold deleteNote, deleteNote_request. rewrite Hcur.
      cbn [negb awaits existsb is_fetch orb fst snd]. unfold deleteNote_response.
      rewrite Hok. auto.
Qed.

Lemma deleteNote_consistent (confirmed : bool) (r : Fetched unit) (a : NotesApp) :
  consistent a -> consistent (fst (deleteNote confirmed r a)).
Proof.
  intros Hcons.
  destruct (deleteNote_cases confirmed r a) as [[Hn Hc] | (cur & _ & Hc & Hn)].
  - apply (consistent_perm a); [now rewrite Hn | assumption | assumption].
  - apply consistent_unbound; [|exact Hc]. rewrite Hn.
    eapply Permutation_NoDup.
    { symmetry. apply Permutation_map, sort_perm. }
    apply NoDup_map_filter, Hcons.
Qed.

Lemma renderNotesList_consistent (a : NotesApp) :
  consistent a -> consistent (renderNotesList None a).
Proof.
  intros H. rewrite renderNotesList_all.
  apply (consistent_perm a); [apply sort_perm | reflexivity | exact H].
Qed.

Lemma selectNote_consistent (noteId : string) (a : NotesApp) :
  consistent a -> consistent (selectNote noteId a).
Proof.
  intros [Hnd Hin]. unfold selectNote.
  destruct (find (id_is noteId) (notes a)) as [note|] eqn:Hfind; [|split; assumption].
  apply find_some in Hfind as [Hnote _].
  apply renderNotesList_consistent. split; [exact Hnd|].
  intros cur Hcur. injection Hcur as <-. exact Hnote.
Qed.

Lemma searchNotes_consistent (query : string) (a : NotesApp) :
  consistent a -> consistent (searchNotes query a).
Proof.
  intros H. unfold searchNotes.
  destruct (negb (JsString.truthy (JsString.trim query))).
  - apply renderNotesList_consistent, H.
  - rewrite renderNotesList_filtered. exact H.
Qed.

Lemma cancelEdit_consistent (a : NotesApp) : consistent a -> consistent (cancelEdit a).
Proof.
  intros [Hnd Hin]. unfold cancelEdit. destruct (currentNote a) as [cur|] eqn:Hcur.
  - split; [exact Hnd|]. simpl. rewrite Hcur. exact Hin.
  - now apply consistent_unbound.
Qed.

Lemma answers_after_save (r : Fetched Note) (a : NotesApp) :
  answers a r -> isEditing a = true -> currentNote a <> None ->
  answers (fst (saveNote true r a)) r.
Proof.
  intros Hans _ Hbound.
  destruct (saveNote_cases true r a) as [[Hn Hc] | (status & saved & -> & Hc & Hn)].
  - unfold answers in *. now rewrite Hn, Hc.
  - unfold answers. now rewrite Hc.
Qed.

Lemma fire_consistent (due : list (nat * N)) (r : Fetched Note) (a : NotesApp) :
  consistent a -> answers a r -> consistent (fst (fire due r a)).
Proof.
  revert a; induction due as [|t due IH]; intros a Hcons Hans; [exact Hcons|].
  simpl. unfold autoSave_callback.
  destruct (isEditing a) eqn:Hflag; simpl.
  - destruct (currentNote a) as [cur|] eqn:Hcur.
    + pose proof (saveNote_consistent true r a Hcons Hans) as H1.
      assert (answers (fst (saveNote true r a)) r) as H2.
      { apply answers_after_save; congruence. }
      destruct (saveNote true r a) as [a1 e1]. simpl in *.
      specialize (IH a1 H1 H2). destruct (fire due r a1). exact IH.
    + specialize (IH a Hcons Hans). destruct (fire due r a). exact IH.
  - specialize (IH a Hcons Hans). destruct (fire due r a). exact IH.
Qed.

Lemma app_autoSave (w : World) : app (autoSave w) = app w.
Proof. unfold autoSave, clearTimeout. destruct (saveTimeout w); reflexivity. Qed.

Lemma step_consistent (e : Event) (w : World) :
  consistent (app w) -> honest e w -> consistent (app (fst (step e w))).
Proof.
  intros Hcons Hh. destruct e; cbn [step fst honest] in *.
  - apply consistent_unbound; [apply Hcons | reflexivity].
  - pose proof (saveNote_consistent false r _ Hcons Hh) as H.
    destruct (saveNote false r (app w)). exact H.
  - pose proof (deleteNote_consistent confirmed r _ Hcons) as H.
    destruct (deleteNote confirmed r (app w)). exact H.
  - apply cancelEdit_consistent, Hcons.
  - apply searchNotes_consistent, Hcons.
  - apply selectNote_consistent, Hcons.
  - rewrite app_autoSave. exact Hcons.
  - rewrite app_autoSave. exact Hcons.
  - pose proof (fire_consistent
                  (filter (is_due (clock w + ms)) (timers w)) r _ Hcons Hh) as H.
    destruct (fire _ r (app w)). exact H.
Qed.

(** Every state a run reaches from the start is consistent, as long as
    the server answers as the data model says. *)
Lemma run_consistent (events : list Event) (w : World) :
  consistent (app w) -> honest_run events w -> consistent (app (fst (run events w))).
Proof.
  revert w; induction events as [|e events IH]; intros w Hcons Hh; [exact Hcons|].
  destruct Hh as [He Hrest]. rewrite run_cons. simpl.
  apply IH; [apply step_consistent|]; assumption.
Qed.

Lemma start_consistent (page : NotesApp) (r : Fetched (list Note)) :
  honest_start r -> consistent (app (start page r)).
Proof.
  intros H. apply consistent_unbound.
  - destruct r as [|status [l|]]; simpl; try constructor.
    destruct (loadNotes_status_unread status l (constructor page)) as [Hn _].
    simpl in Hn. unfold start. simpl. rewrite Hn.
    eapply Permutation_NoDup; [symmetry; apply Permutation_map, sort_perm | exact H].
  - destruct r as [|status [l|]]; try reflexivity.
    unfold start, loadNotes, loadNotes_request, loadNotes_response. simpl.
    rewrite renderNotesList_all. reflexivity.
Qed.

(** ** The collection stays sorted *)

Lemma saveNote_sorted (silent : bool) (r : Fetched Note) (a : NotesApp) :
  StronglySorted newest_first (notes a) ->
  StronglySorted newest_first (notes (fst (saveNote silent r a))).
Proof.
  intros H.
  destruct (saveNote_cases silent r a) as [[-> _] | (status & saved & _ & _ & ->)];
    [exact H | apply sort_sorted].
Qed.

Lemma deleteNote_sorted (confirmed : bool) (r : Fetched unit) (a : NotesApp) :
  StronglySorted newest_first (notes a) ->
  StronglySorted newest_first (notes (fst (deleteNote confirmed r a))).
Proof.
  intros H.
  destruct (deleteNote_cases confirmed r a) as [[-> _] | (cur & _ & _ & ->)];
    [exact H | apply sort_sorted].
Qed.

Lemma fire_sorted (due : list (nat * N)) (r : Fetched Note) (a : NotesApp) :
  StronglySorted newest_first (notes a) ->
  StronglySorted newest_first (notes (fst (fire due r a))).
Proof.
  revert a; induction due as [|t due IH]; intros a H; [exact H|].
  simpl. unfold autoSave_callback.
  destruct (isEditing a && match currentNote a with Some _ => true | None => false end).
  - pose proof (saveNote_sorted true r a H) as H1.
    destruct (saveNote true r a) as [a1 e1]. simpl in H1.
    specialize (IH a1 H1). destruct (fire due r a1). exact IH.
  - specialize (IH a H). destruct (fire due r a). exact IH.
Qed.

Lemma step_sorted (e : Event) (w : World) :
  StronglySorted newest_first (notes (app w)) ->
  StronglySorted newest_first (notes (app (fst (step e w)))).
Proof.
  intros H. destruct e; cbn [step fst].
  - exact H.
  - pose proof (saveNote_sorted false r _ H) as H1.
    destruct (saveNote false r (app w)). exact H1.
  - pose proof (deleteNote_sorted confirmed r _ H) as H1.
    destruct (deleteNote confirmed r (app w)). exact H1.
  - unfold cancelEdit. destruct (currentNote (app w)); exact H.
  - destruct (searchNotes_frame value w) as (l & view & Hstep & _ & _ & _ & Hl).
    simpl in Hstep. injection Hstep as ->. simpl. now rewrite Hl.
  - simpl. unfold selectNote. destruct (find (id_is dataId) (notes (app w))); [|exact H].
    rewrite renderNotesList_all. simpl. apply sort_sorted.
  - rewrite app_autoSave. exact H.
  - rewrite app_autoSave. exact H.
  - pose proof (fire_sorted (filter (is_due (clock w + ms)) (timers w)) r _ H) as H1.
    destruct (fire _ r (app w)). exact H1.
Qed.

Lemma run_sorted (events : list Event) (w : World) :
  StronglySorted newest_first (notes (app w)) ->
  StronglySorted newest_first (notes (app (fst (run events w)))).
Proof.
  revert w; induction events as [|e events IH]; intros w H; [exact H|].
  rewrite run_cons. simpl. apply IH, step_sorted, H.
Qed.

Lemma start_sorted (page : NotesApp) (r : Fetched (list Note)) :
  StronglySorted newest_first (notes (app (start page r))).
Proof.
  destruct r as [|status [l|]]; try constructor.
  destruct (loadNotes_status_unread status l (constructor page)) as [Hn _].
  unfold start. cbn [app]. rewrite Hn. apply sort_sorted.
Qed.

(** C7.  In every world a run of events reaches from the start, a
    search with any query makes no request and changes nothing but the
    list element: the collection keeps its notes and their order (every
    method that writes the collection sorts it in the same step, so the
    sort of [renderNotesList] finds it sorted), and the bound note, the
    editing flag, the editor fields and the timers are not written. *)
Theorem searchNotes_pure
  (page : NotesApp) (r0 : Fetched (list Note)) (events : list Event) (query : string) :
  let w := fst (run events (start page r0)) in
  let w' := fst (step (input_searchInput query) w) in
  snd (step (input_searchInput query) w) = []
  /\ (exists view, w' = set_app (set_notesList view (app w)) w)
  /\ notes (app w') = notes (app w)
  /\ currentNote (app w') = currentNote (app w)
  /\ isEditing (app w') = isEditing (app w)
  /\ noteTitle_value (app w') = noteTitle_value (app w)
  /\ noteContent_value (app w') = noteContent_value (app w)
  /\ timers w' = timers w.
Proof.
  intros w w'.
  assert (StronglySorted newest_first (notes (app w))) as Hsorted
      by apply run_sorted, start_sorted.
  destruct (searchNotes_frame query w) as (l & view & Hstep & _ & _ & _ & Hl).
  specialize (Hl Hsorted). subst l w'. rewrite Hstep. cbn [fst snd].
  split; [reflexivity|]. split; [|repeat split].
  exists view. reflexivity.
Qed.

(** * More of the methods *)

(** ** Definitions *)

(** A save fails when the [fetch] rejects, when the status is outside
    200-299, or when the body is not JSON: the three ways into the
    [catch] of [saveNote]. *)
Definition save_fails (r : Fetched Note) : bool :=
  match r with
  | rejected => true
  | response status json =>
      negb (ok status) || match json with Some _ => false | None => true end
  end.

(** A delete fails when the [fetch] rejects or the status is outside
    200-299; the body is never read. *)
Definition delete_fails (r : Fetched unit) : bool :=
  match r with
  | rejected => true
  | response status _ => negb (ok status)
  end.

(** The [data-id] of the items that carry the class "active". *)
Definition active_ids (view : NotesList) : list string :=
  match view with
  | empty_notes => []
  | note_items items => map data_id (filter item_active items)
  end.

(** An effect that is a PUT request. *)
Definition is_update (e : Effect) : bool :=
  match e with
  | fetch q => match method q with PUT => true | _ => false end
  | confirm _ => false
  end.

(** Whether a code unit occurs in a string. *)
Fixpoint mentions (c : ascii) (s : string) : bool :=
  match s with
  | EmptyString => false
  | String d s' => Ascii.eqb c d || mentions c s'
  end.

(** The code units [escapeHtml] replaces. *)
Definition special (c : ascii) : bool :=
  let n := nat_of_ascii c in
  ((n =? 38) || (n =? 60) || (n =? 62) || (n =? 160))%nat.

Fixpoint all_whitespace (s : string) : bool :=
  match s with
  | EmptyString => true
  | String c s' => JsString.isWhiteSpace c && all_whitespace s'
  end.

(** ** Invariants of every run *)

(** X2.  In every state a run of events reaches from the start,
    whatever the server answers, the collection is sorted by
    [updatedAt] descending: each method that writes [this.notes] calls
    [renderNotesList] on it before it returns. *)
Theorem reachable_sorted
  (page : NotesApp) (r0 : Fetched (list Note)) (events : list Event) :
  StronglySorted newest_first (notes (app (fst (run events (start page r0))))).
Proof. apply run_sorted, start_sorted. Qed.

(** ** Saving: the other paths *)

Lemma saveNote_failed (silent : bool) (r : Fetched Note) (a : NotesApp) :
  JsString.trim (noteTitle_value a) <> ""%string ->
  JsString.trim (noteContent_value a) <> ""%string ->
  save_fails r = true ->
  fst (saveNote silent r a)
  = if silent then console_error "Error saving note:" a
    else showLoading false
           (showError "Failed to save note"
              (console_error "Error saving note:" (showLoading true a))).
Proof.
  intros Ht Hc Hr. unfold saveNote. rewrite saveNote_request_valid by assumption.
  cbn [awaits existsb is_fetch orb fst snd]. unfold saveNote_response.
  destruct r as [|status [saved|]]; simpl in Hr.
  - destruct silent; reflexivity.
  - rewrite orb_false_r in Hr. rewrite Hr. destruct silent; reflexivity.
  - destruct (negb (ok status)), silent; reflexivity.
Qed.

(** X3.  A save that fails (the [fetch] rejects, the status is not a
    success, or the body is not JSON) has sent its one request and
    leaves the collection, the bound note, the editing flag, the list
    and both editor fields as they were.  It logs to the console; when
    not silent it also shows the error "Failed to save note" and ends
    with the loading indicator hidden; when silent it shows nothing. *)
Theorem saveNote_failure (silent : bool) (r : Fetched Note) (a : NotesApp) :
  JsString.trim (noteTitle_value a) <> ""%string ->
  JsString.trim (noteContent_value a) <> ""%string ->
  save_fails r = true ->
  List.length (snd (saveNote silent r a)) = 1%nat
  /\ notes (fst (saveNote silent r a)) = notes a
  /\ currentNote (fst (saveNote silent r a)) = currentNote a
  /\ isEditing (fst (saveNote silent r a)) = isEditing a
  /\ notesList (fst (saveNote silent r a)) = notesList a
  /\ noteTitle_value (fst (saveNote silent r a)) = noteTitle_value a
  /\ noteContent_value (fst (saveNote silent r a)) = noteContent_value a
  /\ console (fst (saveNote silent r a)) = console a ++ ["Error saving note:"%string]
  /\ notifications (fst (saveNote silent r a))
     = (if silent then notifications a
        else notifications a ++ [("Failed to save note", "error")%string])
  /\ loadingIndicator_display (fst (saveNote silent r a))
     = (if silent then loadingIndicator_display a else "none"%string).
Proof.
  intros Ht Hc Hr. rewrite (saveNote_failed silent r a Ht Hc Hr).
  split.
  - unfold saveNote. rewrite saveNote_request_valid by assumption. reflexivity.
  - destruct silent; repeat split.
Qed.

Lemma saveNote_created (silent : bool) (status : Z) (saved : Note) (a : NotesApp) :
  currentNote a = None ->
  JsString.trim (noteTitle_value a) <> ""%string ->
  JsString.trim (noteContent_value a) <> ""%string ->
  ok status = true ->
  snd (saveNote silent (response status (Some saved)) a)
  = [fetch (mkRequest "/api/notes" POST
              (Some (JsString.trim (noteTitle_value a),
                     JsString.trim (noteContent_value a))))]
  /\ notes (fst (saveNote silent (response status (Some saved)) a))
     = sort byUpdatedDesc (notes a ++ [saved])
  /\ currentNote (fst (saveNote silent (response status (Some saved)) a)) = Some saved
  /\ isEditing (fst (saveNote silent (response status (Some saved)) a)) = isEditing a.
Proof.
  intros Hcur Ht Hc Hok. unfold saveNote.
  rewrite saveNote_request_valid by assumption. rewrite Hcur.
  cbn [awaits existsb is_fetch orb fst snd].
  set (a1 := if silent then a else showLoading true a).
  assert (notes a1 = notes a /\ currentNote a1 = None /\ isEditing a1 = isEditing a)
    as (Hn1 & Hc1 & He1) by (subst a1; destruct silent; auto).
  split; [reflexivity|].
  rewrite saveNote_response_notes, Hc1, Hn1 by assumption.
  destruct (saveNote_response_editor silent status saved a1 Hok) as [-> ->].
  auto.
Qed.


(** ** Deleting: the other paths *)

(** X5.  A delete the user does not confirm sends nothing and leaves
    the state as it was: no DELETE request is made without a confirmed
    dialog.  A confirmed delete that fails (the [fetch] rejects or the
    status is not a success) has sent its one request and leaves the
    collection, the bound note, the editing flag and the list as they
    were; it shows the error "Failed to delete note" and ends with the
    loading indicator hidden. *)
Theorem deleteNote_keeps (a : NotesApp) :
  (forall r,
      fst (deleteNote false r a) = a
      /\ existsb is_fetch (snd (deleteNote false r a)) = false)
  /\ (forall cur r,
         currentNote a = Some cur ->
         delete_fails r = true ->
         snd (deleteNote true r a)
         = [confirm confirm_delete; fetch (mkRequest (note_url cur) DELETE None)]
         /\ notes (fst (deleteNote true r a)) = notes a
         /\ currentNote (fst (deleteNote true r a)) = Some cur
         /\ isEditing (fst (deleteNote true r a)) = isEditing a
         /\ notesList (fst (deleteNote true r a)) = notesList a
         /\ notifications (fst (deleteNote true r a))
            = notifications a ++ [("Failed to delete note", "error")%string]
         /\ loadingIndicator_display (fst (deleteNote true r a)) = "none"%string).
Proof.
  split.
  - intros r. unfold deleteNote, deleteNote_request.
    destruct (currentNote a); auto.
  - intros cur r Hcur Hr. unfold deleteNote, deleteNote_request. rewrite Hcur.
    cbn [negb awaits existsb is_fetch orb fst snd]. unfold deleteNote_response.
    destruct r as [|status body]; simpl in Hr.
    + repeat split. exact Hcur.
    + rewrite Hr. repeat split. exact Hcur.
Qed.

(** ** Selecting *)

Lemma active_ids_rendered (cur : Note) (l : list Note) :
  map data_id (filter item_active (map (renderItem (Some cur)) l))
  = map Note.id (filter (id_is (Note.id cur)) l).
Proof.
  induction l as [|x l IH]; simpl; [reflexivity|].
  unfold id_is at 1. rewrite (String.eqb_sym (Note.id x)).
  destruct (String.eqb (Note.id cur) (Note.id x)); simpl; now rewrite IH.
Qed.

Lemma filter_id_single (note : Note) (l : list Note) :
  NoDup (map Note.id l) -> In note l -> filter (id_is (Note.id note)) l = [note].
Proof.
  induction l as [|x l IH]; simpl; intros Hnd Hin; [contradiction|].
  apply NoDup_cons_iff in Hnd as [Hx Hnd]. unfold id_is at 1.
  destruct Hin as [->|Hin].
  - rewrite String.eqb_refl. f_equal. now apply filter_id_absent.
  - destruct (String.eqb_spec (Note.id x) (Note.id note)) as [E|E].
    + exfalso. apply Hx. rewrite E. now apply in_map.
    + now apply IH.
Qed.

(** The items active in a full render of a consistent state with a
    bound note: the one of that note. *)
Lemma active_ids_bound (cur : Note) (a : NotesApp) :
  NoDup (map Note.id (notes a)) ->
  In cur (notes a) ->
  currentNote a = Some cur ->
  active_ids (notesList (renderNotesList None a)) = [Note.id cur].
Proof.
  intros Hnd Hin Hcur. rewrite renderNotesList_all, list_view_sort.
  destruct (notes a) as [|x l] eqn:Hl; [contradiction|].
  cbn [notesList set_notesList]. unfold active_ids. rewrite Hcur.
  rewrite active_ids_rendered, filter_sort, filter_id_single by assumption.
  reflexivity.
Qed.

Lemma selectNote_found (noteId : string) (note : Note) (a : NotesApp) :
  find (id_is noteId) (notes a) = Some note ->
  selectNote noteId a
  = renderNotesList None
      (populateEditor note
         (showNoteEditor (set_isEditing true (set_currentNote (Some note) a))))
  /\ In note (notes a) /\ Note.id note = noteId.
Proof.
  intros Hfind. unfold selectNote. rewrite Hfind. split; [reflexivity|].
  apply find_some in Hfind as [Hin Hid]. split; [exact Hin|].
  now apply String.eqb_eq.
Qed.

(** X6.  A click on a list item whose identifier is not in the
    collection changes nothing.  Otherwise the editor is editing the
    first note of that identifier: the form is shown and the
    placeholder hidden, both fields hold the note's title and content,
    the delete button is shown and the collection keeps its notes; and
    when the collection has one note per identifier, exactly one item
    of the list is active, the one clicked. *)
Theorem selectNote_binds (noteId : string) (a : NotesApp) :
  (find (id_is noteId) (notes a) = None -> selectNote noteId a = a)
  /\ (forall note,
         find (id_is noteId) (notes a) = Some note ->
         In note (notes a)
         /\ Note.id note = noteId
         /\ editorState (selectNote noteId a) = Some (Editing note)
         /\ noteTitle_value (selectNote noteId a) = Note.title note
         /\ noteContent_value (selectNote noteId a) = Note.content note
         /\ noteForm_display (selectNote noteId a) = "flex"%string
         /\ emptyState_display (selectNote noteId a) = "none"%string
         /\ deleteBtn_display (selectNote noteId a) = "inline-block"%string
         /\ Permutation (notes (selectNote noteId a)) (notes a)
         /\ (NoDup (map Note.id (notes a)) ->
             active_ids (notesList (selectNote noteId a)) = [noteId])).
Proof.
  split.
  - intros Hfind. unfold selectNote. now rewrite Hfind.
  - intros note Hfind.
    destruct (selectNote_found noteId note a Hfind) as (Heq & Hin & Hid).
    split; [exact Hin|]. split; [exact Hid|]. rewrite Heq.
    split; [|split; [|split; [|split; [|split; [|split; [|split]]]]]];
      try (rewrite renderNotesList_all; reflexivity).
    + rewrite renderNotesList_all. cbn [notes set_notesList set_notes].
      apply sort_perm.
    + intros Hnd. rewrite <- Hid. apply active_ids_bound; auto.
Qed.

(** X7.  "New note" clicked while a note is selected: the editor is
    creating, both fields and the line of dates are empty, the delete
    button is hidden and the title has the focus; the collection is
    untouched.  The list is not rendered again, so the item of the note
    that was selected is still the active one. *)
Theorem createNewNote_after_select (noteId : string) (note : Note) (a : NotesApp) :
  find (id_is noteId) (notes a) = Some note ->
  NoDup (map Note.id (notes a)) ->
  editorState (createNewNote (selectNote noteId a)) = Some Creating
  /\ noteTitle_value (createNewNote (selectNote noteId a)) = ""%string
  /\ noteContent_value (createNewNote (selectNote noteId a)) = ""%string
  /\ noteMeta_textContent (createNewNote (selectNote noteId a)) = ""%string
  /\ deleteBtn_display (createNewNote (selectNote noteId a)) = "none"%string
  /\ activeElement (createNewNote (selectNote noteId a)) = "noteTitle"%string
  /\ notes (createNewNote (selectNote noteId a)) = notes (selectNote noteId a)
  /\ active_ids (notesList (createNewNote (selectNote noteId a))) = [noteId].
Proof.
  intros Hfind Hnd.
  destruct (selectNote_found noteId note a Hfind) as (Heq & Hin & Hid).
  repeat split.
  change (notesList (createNewNote (selectNote noteId a)))
    with (notesList (selectNote noteId a)).
  rewrite Heq, <- Hid. apply active_ids_bound; auto.
Qed.

(** Writing the fields of a selected note and cancelling gives back
    the application object the selection left (the input listeners and
    their timer are the matter of [advance]). *)
Lemma select_type_cancel (noteId title content : string) (note : Note) (a : NotesApp) :
  find (id_is noteId) (notes a) = Some note ->
  cancelEdit
    (set_noteContent_value content (set_noteTitle_value title (selectNote noteId a)))
  = selectNote noteId a.
Proof.
  intros Hfind.
  destruct (selectNote_found noteId note a Hfind) as (Heq & _ & _).
  rewrite Heq, renderNotesList_all. reflexivity.
Qed.

(** ** What a save never does *)

(** X8.  No save, whatever its outcome, writes the title or the content
    field: what the user typed stays, untrimmed.  A silent save
    moreover shows no notification and leaves the loading indicator,
    the form and the placeholder as they were. *)
Theorem saveNote_quiet (r : Fetched Note) (a : NotesApp) :
  (forall silent,
      noteTitle_value (fst (saveNote silent r a)) = noteTitle_value a
      /\ noteContent_value (fst (saveNote silent r a)) = noteContent_value a)
  /\ notifications (fst (saveNote true r a)) = notifications a
  /\ loadingIndicator_display (fst (saveNote true r a)) = loadingIndicator_display a
  /\ noteForm_display (fst (saveNote true r a)) = noteForm_display a
  /\ emptyState_display (fst (saveNote true r a)) = emptyState_display a.
Proof.
  assert (forall silent,
             noteTitle_value (fst (saveNote silent r a)) = noteTitle_value a
             /\ noteContent_value (fst (saveNote silent r a)) = noteContent_value a
             /\ (silent = true ->
                 notifications (fst (saveNote silent r a)) = notifications a
                 /\ loadingIndicator_display (fst (saveNote silent r a))
                    = loadingIndicator_display a
                 /\ noteForm_display (fst (saveNote silent r a)) = noteForm_display a
                 /\ emptyState_display (fst (saveNote silent r a))
                    = emptyState_display a)) as H.
  { intros silent. unfold saveNote, saveNote_request.
    destruct (negb (JsString.truthy (JsString.trim (noteTitle_value a)))
              || negb (JsString.truthy (JsString.trim (noteContent_value a)))).
    { destruct silent; repeat split; discriminate. }
    cbn [awaits existsb is_fetch orb fst snd]. unfold saveNote_response.
    destruct silent, r as [|status [saved|]]; cbn [negb];
      try destruct (ok status); cbn [negb];
      rewrite ?renderNotesList_all;
      cbn [currentNote notes showLoading set_loadingIndicator_display];
      try destruct (currentNote a) as [cur|];
      try destruct (findIndex (id_is (Note.id cur)) (notes a));
      repeat split; discriminate. }
  split.
  - intros silent. destruct (H silent) as (Ht & Hc & _). auto.
  - destruct (H true) as (_ & _ & Hs). apply Hs. reflexivity.
Qed.

Lemma saveNote_bound_updates (silent : bool) (r : Fetched Note) (a : NotesApp) :
  currentNote a <> None -> forallb is_update (snd (saveNote silent r a)) = true.
Proof.
  intros Hbound. destruct (currentNote a) as [cur|] eqn:Hcur; [|congruence].
  unfold saveNote, saveNote_request.
  destruct (negb (JsString.truthy (JsString.trim (noteTitle_value a)))
            || negb (JsString.truthy (JsString.trim (noteContent_value a))));
    [reflexivity|].
  cbn [fst snd].
  assert (currentNote (if negb silent then showLoading true a else a) = Some cur) as ->
      by (destruct silent; exact Hcur).
  reflexivity.
Qed.

Lemma fire_updates (due : list (nat * N)) (r : Fetched Note) (a : NotesApp) :
  forallb is_update (snd (fire due r a)) = true.
Proof.
  revert a; induction due as [|t due IH]; intros a; [reflexivity|].
  simpl. unfold autoSave_callback.
  destruct (isEditing a); cbn [andb].
  - destruct (currentNote a) as [cur|] eqn:Hcur.
    + pose proof (saveNote_bound_updates true r a) as H.
      rewrite Hcur in H. specialize (H ltac:(discriminate)).
      destruct (saveNote true r a) as [a1 e1]. cbn [snd] in H.
      specialize (IH a1). destruct (fire due r a1) as [a2 e2]. cbn [snd] in *.
      rewrite forallb_app, H, IH. reflexivity.
    + specialize (IH a). destruct (fire due r a). exact IH.
  - specialize (IH a). destruct (fire due r a). exact IH.
Qed.

(** X9.  Auto-save never creates a note: whatever the state and the
    timers, everything the passing of time makes the page do is PUT
    requests for a bound note; no POST, no DELETE and no dialog. *)
Theorem autoSave_never_creates (ms : N) (r : Fetched Note) (w : World) :
  forallb is_update (snd (step (elapse ms r) w)) = true.
Proof.
  cbn [step].
  pose proof (fire_updates (filter (is_due (clock w + ms)) (timers w)) r (app w)) as H.
  destruct (fire _ r (app w)). exact H.
Qed.

(** ** Escaping *)

(** A text none of whose code units [escapeHtml] replaces. *)
Fixpoint plain_text (s : string) : bool :=
  match s with
  | EmptyString => true
  | String c s' => negb (special c) && plain_text s'
  end.

Lemma mentions_append (c : ascii) (s t : string) :
  mentions c (s ++ t) = mentions c s || mentions c t.
Proof.
  induction s as [|d s IH]; simpl; [reflexivity|]. now rewrite IH, orb_assoc.
Qed.

Lemma escapeChar_safe (c : ascii) :
  mentions "<" (escapeChar c) = false /\ mentions ">" (escapeChar c) = false.
Proof. destruct c as [[] [] [] [] [] [] [] []]; split; reflexivity. Qed.

Lemma escapeChar_cases (c : ascii) :
  (c = "&"%char /\ escapeChar c = "&amp;"%string)
  \/ (c = "<"%char /\ escapeChar c = "&lt;"%string)
  \/ (c = ">"%char /\ escapeChar c = "&gt;"%string)
  \/ (c = "160"%char /\ escapeChar c = "&nbsp;"%string)
  \/ (special c = false /\ c <> "&"%char /\ escapeChar c = String c EmptyString).
Proof.
  destruct c as [[] [] [] [] [] [] [] []];
    first [ left; split; reflexivity
          | right; left; split; reflexivity
          | right; right; left; split; reflexivity
          | right; right; right; left; split; reflexivity
          | right; right; right; right;
            split; [reflexivity | split; [discriminate | reflexivity]] ].
Qed.

Lemma escapeHtml_no_angle (text : string) :
  mentions "<" (escapeHtml text) = false /\ mentions ">" (escapeHtml text) = false.
Proof.
  induction text as [|c text [IHl IHg]]; simpl; [auto|].
  destruct (escapeChar_safe c) as [Hl Hg].
  now rewrite !mentions_append, Hl, Hg, IHl, IHg.
Qed.

(** X10.  The markup [escapeHtml] returns holds no angle bracket,
    whatever the text; so neither the title nor the preview of a list
    item can open or close a tag.  A text without ampersand, angle
    bracket and no-break space is returned as it is. *)
Theorem escapeHtml_safe (text : string) :
  mentions "<" (escapeHtml text) = false
  /\ mentions ">" (escapeHtml text) = false
  /\ (forall current note,
         mentions "<" (h3 (renderItem current note)) = false
         /\ mentions ">" (h3 (renderItem current note)) = false
         /\ mentions "<" (p (renderItem current note)) = false
         /\ mentions ">" (p (renderItem current note)) = false)
  /\ (plain_text text = true -> escapeHtml text = text).
Proof.
  split; [apply escapeHtml_no_angle|]. split; [apply escapeHtml_no_angle|]. split.
  - intros current note. cbn [h3 p renderItem]. unfold preview.
    rewrite !mentions_append.
    destruct (escapeHtml_no_angle (Note.title note)) as [-> ->].
    destruct (escapeHtml_no_angle
                (JsString.substring (Note.content note) 0 100)) as [-> ->].
    destruct (100 <? String.length (Note.content note))%nat; repeat split.
  - induction text as [|c text IH]; simpl; [reflexivity|].
    intros H. apply andb_true_iff in H as [Hc Ht]. apply negb_true_iff in Hc.
    destruct (escapeChar_cases c)
      as [[-> _]|[[-> _]|[[-> _]|[[-> _]|(_ & _ & ->)]]]]; try discriminate.
    simpl. now rewrite IH.
Qed.

Lemma escapeChar_inj (c d : ascii) (x y : string) :
  (escapeChar c ++ x)%string = (escapeChar d ++ y)%string -> c = d /\ x = y.
Proof.
  intros H.
  destruct (escapeChar_cases c)
    as [[-> Ec]|[[-> Ec]|[[-> Ec]|[[-> Ec]|(_ & Hc & Ec)]]]];
    destruct (escapeChar_cases d)
      as [[-> Ed]|[[-> Ed]|[[-> Ed]|[[-> Ed]|(_ & Hd & Ed)]]]];
    rewrite Ec in H; try rewrite Ed in H; simpl in H; try discriminate;
    injection H; intros; subst; first [split; congruence | exfalso; congruence].
Qed.

(** X11.  [escapeHtml] loses nothing: two texts with the same markup
    are the same text. *)
Theorem escapeHtml_injective (s t : string) :
  escapeHtml s = escapeHtml t -> s = t.
Proof.
  revert t; induction s as [|c s IH]; intros [|d t] H; simpl in H.
  - reflexivity.
  - exfalso.
    destruct (escapeChar_cases d)
      as [[_ E]|[[_ E]|[[_ E]|[[_ E]|(_ & _ & E)]]]]; rewrite E in H; discriminate.
  - exfalso.
    destruct (escapeChar_cases c)
      as [[_ E]|[[_ E]|[[_ E]|[[_ E]|(_ & _ & E)]]]]; rewrite E in H; discriminate.
  - apply escapeChar_inj in H as [-> H]. f_equal. now apply IH.
Qed.

(** ** Trimming *)

Lemma trimStart_cases (s : string) :
  JsString.trimStart s = ""%string
  \/ exists c t, JsString.trimStart s = String c t /\ JsString.isWhiteSpace c = false.
Proof.
  induction s as [|c s IH]; simpl; [auto|].
  destruct (JsString.isWhiteSpace c) eqn:E; [exact IH|]. right. eauto.
Qed.

Lemma trimEnd_head (c : ascii) (t : string) :
  JsString.isWhiteSpace c = false ->
  exists t', JsString.trimEnd (String c t) = String c t'.
Proof.
  intros H. simpl. destruct (JsString.trimEnd t); [rewrite H|]; eauto.
Qed.

Lemma trimEnd_idem (s : string) :
  JsString.trimEnd (JsString.trimEnd s) = JsString.trimEnd s.
Proof.
  induction s as [|c s IH]; [reflexivity|].
  change (JsString.trimEnd (String c s))
    with (match JsString.trimEnd s with
          | EmptyString =>
              if JsString.isWhiteSpace c then EmptyString else String c EmptyString
          | String d t => String c (String d t)
          end).
  destruct (JsString.trimEnd s) as [|d t] eqn:E.
  - destruct (JsString.isWhiteSpace c) eqn:Ec; [reflexivity|].
    simpl. now rewrite Ec.
  - change (JsString.trimEnd (String c (String d t)))
      with (match JsString.trimEnd (String d t) with
            | EmptyString =>
                if JsString.isWhiteSpace c then EmptyString else String c EmptyString
            | String d' t' => String c (String d' t')
            end).
    now rewrite IH.
Qed.

Lemma trim_idem (s : string) : JsString.trim (JsString.trim s) = JsString.trim s.
Proof.
  unfold JsString.trim.
  destruct (trimStart_cases s) as [-> | (c & t & -> & Hc)]; [reflexivity|].
  destruct (trimEnd_head c t Hc) as [t' Ht'].
  rewrite Ht'. simpl JsString.trimStart. rewrite Hc, <- Ht'. apply trimEnd_idem.
Qed.

Lemma trimStart_blank (s : string) :
  JsString.trimStart s = ""%string <-> all_whitespace s = true.
Proof.
  induction s as [|c s IH]; simpl; [tauto|].
  destruct (JsString.isWhiteSpace c); simpl; [exact IH|].
  split; discriminate.
Qed.

Lemma trim_blank (s : string) :
  JsString.trim s = ""%string <-> all_whitespace s = true.
Proof.
  rewrite <- trimStart_blank. unfold JsString.trim.
  destruct (trimStart_cases s) as [-> | (c & t & -> & Hc)]; [tauto|].
  destruct (trimEnd_head c t Hc) as [t' ->]. split; discriminate.
Qed.

(** X12.  Whatever a save sends has a title and a content that are the
    trimmed fields, are not empty, and have no white space left at
    either end (trimming them again changes nothing).  A title or a
    content that is white space only is never sent. *)
Theorem saveNote_sends_trimmed (silent : bool) (r : Fetched Note) (a : NotesApp) :
  (forall q,
      In (fetch q) (snd (saveNote silent r a)) ->
      exists title content,
        body q = Some (title, content)
        /\ title = JsString.trim (noteTitle_value a)
        /\ content = JsString.trim (noteContent_value a)
        /\ title <> ""%string /\ content <> ""%string
        /\ JsString.trim title = title /\ JsString.trim content = content)
  /\ (all_whitespace (noteTitle_value a) = true
      \/ all_whitespace (noteContent_value a) = true ->
      snd (saveNote silent r a) = []).
Proof.
  split.
  - intros q Hq.
    destruct (string_dec (JsString.trim (noteTitle_value a)) "") as [Ht|Ht].
    { unfold saveNote in Hq.
      rewrite (saveNote_request_invalid silent a (or_introl Ht)) in Hq.
      contradiction. }
    destruct (string_dec (JsString.trim (noteContent_value a)) "") as [Hc|Hc].
    { unfold saveNote in Hq.
      rewrite (saveNote_request_invalid silent a (or_intror Hc)) in Hq.
      contradiction. }
    unfold saveNote in Hq. rewrite saveNote_request_valid in Hq by assumption.
    cbn [snd] in Hq. destruct Hq as [Hq|[]]. injection Hq as <-.
    exists (JsString.trim (noteTitle_value a)), (JsString.trim (noteContent_value a)).
    split; [destruct (currentNote a); reflexivity|].
    repeat split; auto using trim_idem.
  - intros H. unfold saveNote.
    rewrite saveNote_request_invalid; [destruct silent; reflexivity|].
    rewrite !trim_blank. exact H.
Qed.

(** ** Creating and deleting again *)

Lemma filter_other_fresh (noteId : string) (l : list Note) :
  ~ In noteId (map Note.id l) -> filter (other_than noteId) l = l.
Proof.
  induction l as [|x l IH]; simpl; intros H; [reflexivity|].
  unfold other_than at 1, id_is.
  destruct (String.eqb_spec (Note.id x) noteId) as [E|E]; simpl.
  - exfalso. auto.
  - f_equal. apply IH. tauto.
Qed.

(** X13.  In a state a run has reached, while a note is being created:
    when the note is saved, the server answers with a note whose
    identifier is new to the collection, and that note is then deleted,
    the collection is again exactly what it was, in the same order, and
    the editor is closed. *)
Theorem create_then_delete
  (page : NotesApp) (r0 : Fetched (list Note)) (events : list Event)
  (silent : bool) (created deleted : Z) (saved : Note) (body : option unit) :
  let a := app (fst (run events (start page r0))) in
  let a1 := fst (saveNote silent (response created (Some saved)) a) in
  let a2 := fst (deleteNote true (response deleted body) a1) in
  editorState a = Some Creating ->
  JsString.trim (noteTitle_value a) <> ""%string ->
  JsString.trim (noteContent_value a) <> ""%string ->
  ok created = true ->
  ok deleted = true ->
  ~ In (Note.id saved) (map Note.id (notes a)) ->
  notes a2 = notes a /\ editorState a2 = Some Closed.
Proof.
  intros a a1 a2 Hed Ht Hc Hok1 Hok2 Hfresh.
  assert (StronglySorted newest_first (notes a)) as Hsorted
      by apply run_sorted, start_sorted.
  assert (currentNote a = None) as Hcur by (apply editorState_unbound; auto).
  destruct (saveNote_created silent created saved a Hcur Ht Hc Hok1)
    as (_ & Hn1 & Hc1 & _).
  fold a1 in Hn1, Hc1.
  destruct (deleteNote_success deleted body saved a1 Hc1 Hok2)
    as (_ & Hn2 & Hc2 & Hflag & _).
  fold a2 in Hn2, Hc2, Hflag. split.
  - rewrite Hn2, Hn1, filter_sort, filter_app, filter_other_fresh by assumption.
    simpl. unfold other_than at 1, id_is. rewrite String.eqb_refl. simpl.
    rewrite app_nil_r. now rewrite !sort_fixed by (rewrite ?sort_fixed; assumption).
  - unfold editorState. now rewrite Hc2, Hflag.
Qed.

(** ** Loading *)


(** ** Responses and the note bound when they arrive *)

Lemma assign_perm (noteId : string) (saved : Note) (l : list Note) (index : nat) :
  NoDup (map Note.id l) ->
  findIndex (id_is noteId) l = Some index ->
  Permutation (assign l index saved) (saved :: filter (other_than noteId) l).
Proof.
  revert index; induction l as [|x l IH]; simpl; intros index Hnd Hfind; [discriminate|].
  apply NoDup_cons_iff in Hnd as [Hx Hnd]. unfold other_than at 1.
  destruct (id_is noteId x) eqn:E.
  - injection Hfind as <-. simpl. constructor.
    rewrite filter_other_fresh; [reflexivity|].
    unfold id_is in E. apply String.eqb_eq in E. congruence.
  - destruct (findIndex (id_is noteId) l) as [i|] eqn:Ei; [|discriminate].
    injection Hfind as <-. simpl. rewrite (IH i Hnd eq_refl). apply perm_swap.
Qed.

(** X17.  The continuation of a save looks at the note bound when the
    response arrives, not at the identifier in the payload: in a
    consistent state with the note [cur] bound, a successful response
    puts the payload in the place of [cur] (the collection is the
    payload and the notes of every identifier but that of [cur]) and
    binds the payload; this holds whether or not the payload has the
    identifier of [cur]. *)
Theorem saveNote_response_replaces_bound
  (silent : bool) (status : Z) (saved cur : Note) (a : NotesApp) :
  ok status = true ->
  currentNote a = Some cur ->
  consistent a ->
  Permutation
    (notes (saveNote_response silent (response status (Some saved)) a))
    (saved :: filter (other_than (Note.id cur)) (notes a))
  /\ currentNote (saveNote_response silent (response status (Some saved)) a)
     = Some saved.
Proof.
  intros Hok Hcur [Hnd Hin]. split.
  - rewrite saveNote_response_notes, Hcur, sort_perm by assumption.
    destruct (findIndex_present (Note.id cur) (notes a)) as [index Hfind].
    { apply in_map, Hin, Hcur. }
    rewrite Hfind. now apply assign_perm.
  - apply saveNote_response_editor, Hok.
Qed.

(** X16.  The continuation of a delete reads the bound note when the
    response arrives.  When by then no note is bound and the collection
    is not empty, [this.currentNote.id] throws inside [filter]: although
    the server answered with a success status, the collection is left
    as it was and the error "Failed to delete note" is shown.  When a
    note is bound, the notes of its identifier are the ones removed. *)
Theorem deleteNote_response_bound (status : Z) (body : option unit) (a : NotesApp) :
  ok status = true ->
  (currentNote a = None -> notes a <> [] ->
   notes (deleteNote_response (response status body) a) = notes a
   /\ notesList (deleteNote_response (response status body) a) = notesList a
   /\ notifications (deleteNote_response (response status body) a)
      = notifications a ++ [("Failed to delete note", "error")%string])
  /\ (forall cur, currentNote a = Some cur ->
      notes (deleteNote_response (response status body) a)
      = sort byUpdatedDesc (filter (other_than (Note.id cur)) (notes a))
      /\ notifications (deleteNote_response (response status body) a)
         = notifications a ++ [("Note deleted successfully", "success")%string]).
Proof.
  intros Hok. unfold deleteNote_response. rewrite Hok. cbn [negb]. split.
  - intros Hcur Hnotes. rewrite Hcur.
    destruct (notes a) eqn:E; [congruence|]. repeat split. exact E.
  - intros cur Hcur. rewrite Hcur, renderNotesList_all. repeat split.
Qed.

(** ** One request at a time *)

Lemma saveNote_one_request (silent : bool) (r : Fetched Note) (a : NotesApp) :
  (List.length (snd (saveNote silent r a)) <= 1)%nat.
Proof.
  unfold saveNote, saveNote_request.
  destruct (negb (JsString.truthy (JsString.trim (noteTitle_value a)))
            || negb (JsString.truthy (JsString.trim (noteContent_value a))));
    simpl; lia.
Qed.

(** X18.  In every world a run of events reaches from the start, no
    event makes the page send more than one request: a click on save or
    delete sends at most one, the passing of time at most the one
    auto-save, and nothing is sent again after a failure. *)
Theorem one_request_per_event
  (page : NotesApp) (r0 : Fetched (list Note)) (events : list Event) (e : Event) :
  (List.length
     (filter is_fetch (snd (step e (fst (run events (start page r0)))))) <= 1)%nat.
Proof.
  set (w := fst (run events (start page r0))).
  assert (one_timer w) as Hinv by (apply run_one_timer; left; reflexivity).
  assert (forall l : list Effect,
             (List.length l <= 1 -> List.length (filter is_fetch l) <= 1)%nat) as Hle.
  { intros l H. pose proof (filter_length_le is_fetch l). lia. }
  destruct e; cbn [step]; try (simpl; lia).
  - pose proof (saveNote_one_request false r (app w)) as H.
    destruct (saveNote false r (app w)). cbn [snd] in *. auto.
  - unfold deleteNote, deleteNote_request.
    destruct (currentNote (app w)); [destruct confirmed|]; simpl; lia.
  - assert (List.length (filter (is_due (clock w + ms)) (timers w)) <= 1)%nat as Hdue.
    { pose proof (filter_length_le (is_due (clock w + ms)) (timers w)) as H.
      assert (List.length (timers w) <= 1)%nat
        by (destruct Hinv as [E | (h & due & E & _)]; rewrite E; simpl; lia).
      lia. }
    destruct (filter (is_due (clock w + ms)) (timers w)) as [|t [|t' due]];
      [simpl; lia | | simpl in Hdue; lia].
    simpl fire. unfold autoSave_callback.
    destruct (isEditing (app w) && _).
    + pose proof (saveNote_one_request true r (app w)) as H.
      destruct (saveNote true r (app w)). cbn [snd] in *.
      rewrite app_nil_r. auto.
    + simpl. lia.
Qed.

(** ** A burst of edits *)

(** X14.  In a world a run has reached, while a note is being edited:
    an edit of the content, a second edit less than two seconds later,
    and then two seconds without events end in exactly one request,
    sent when those last two seconds are over: the PUT of the title and
    of the content of the second edit.  The first edit alone sends
    nothing. *)
Theorem debounce_burst
  (page : NotesApp) (r0 : Fetched (list Note)) (events : list Event)
  (note : Note) (earlier later : string) (gap : N) (r1 r2 : Fetched Note) :
  let w := fst (run events (start page r0)) in
  editorState (app w) = Some (Editing note) ->
  JsString.trim (noteTitle_value (app w)) <> ""%string ->
  JsString.trim later <> ""%string ->
  (gap < 2000)%N ->
  snd (run [input_noteContent earlier; elapse gap r1;
            input_noteContent later; elapse 2000 r2] w)
  = [[]; []; [];
     [fetch (mkRequest (note_url note) PUT
               (Some (JsString.trim (noteTitle_value (app w)),
                      JsString.trim later)))]].
Proof.
  intros w Hed Ht Hl Hgap.
  assert (one_timer w) as Hinv by (apply run_one_timer; left; reflexivity).
  set (w1 := set_app (set_noteContent_value earlier (app w)) w).
  assert (step (input_noteContent earlier) w = (autoSave w1, [])) as Hs1
      by reflexivity.
  destruct (autoSave_restarts w1 Hinv) as (Ht1 & Hv1 & Ha1 & Hc1).
  pose proof (step_elapse_early gap r1 _ _ (autoSave w1) Ht1) as Hs2.
  rewrite Hc1 in Hs2. specialize (Hs2 ltac:(apply N.add_lt_mono_l; exact Hgap)).
  set (w2 := mkWorld (app (autoSave w1)) (saveTimeout (autoSave w1))
               [(nextTimer w1, (clock w1 + 2000)%N)]
               (clock w1 + gap)%N (nextTimer (autoSave w1))) in Hs2.
  assert (one_timer w2) as Hinv2.
  { right. exists (nextTimer w1), (clock w1 + 2000)%N. split; [reflexivity | exact Hv1]. }
  set (w3 := set_app (set_noteContent_value later (app w2)) w2).
  assert (step (input_noteContent later) w2 = (autoSave w3, [])) as Hs3
      by reflexivity.
  destruct (autoSave_restarts w3 Hinv2) as (Ht3 & Hv3 & Ha3 & Hc3).
  pose proof (step_elapse_due 2000 r2 _ _ (autoSave w3) Ht3) as Hs4.
  rewrite Hc3 in Hs4. specialize (Hs4 (N.le_refl _)).
  rewrite !run_cons, Hs1. cbn [fst snd]. rewrite Hs2. cbn [fst snd].
  rewrite Hs3. cbn [fst snd]. rewrite Hs4. cbn [fst snd run].
  rewrite Ha3.
  change (app w3) with (set_noteContent_value later (app (autoSave w1))).
  rewrite Ha1.
  set (a := set_noteContent_value later (app w1)).
  assert (editorState a = Some (Editing note)) as Heda by exact Hed.
  rewrite (autoSave_callback_editing r2 note a Heda).
  apply editorState_Editing in Hed as [Hcur _].
  unfold saveNote. rewrite saveNote_request_valid by assumption.
  cbn [fst snd]. change (currentNote a) with (currentNote (app w)).
  rewrite Hcur. reflexivity.
Qed.

(** ** The list after a save, a delete and a search *)






(** X21.  A search with a query that is not blank shows the placeholder
    "No notes found" exactly when no note of the collection is a hit;
    an empty result never falls back to the whole collection. *)
Theorem searchNotes_placeholder (query : string) (a : NotesApp) :
  JsString.trim query <> ""%string ->
  (notesList (searchNotes query a) = empty_notes
   <-> forall note, In note (notes a) -> ~ Hit query note).
Proof.
  intros Hq. rewrite searchNotes_query, renderNotesList_filtered, list_view_sort
    by assumption.
  cbn [notesList set_notesList].
  destruct (filter (matches query) (notes a)) as [|x l] eqn:E.
  - split; [|reflexivity]. intros _ note Hin Hhit.
    apply matches_Hit in Hhit.
    assert (In note (filter (matches query) (notes a))) as H
        by (apply filter_In; auto).
    rewrite E in H. contradiction.
  - split; [discriminate|]. intros Hnone. exfalso.
    assert (In x (filter (matches query) (notes a))) as H by (rewrite E; now left).
    apply filter_In in H as [Hin Hm]. apply matches_Hit in Hm.
    exact (Hnone x Hin Hm).
Qed.

(** ** Cancelling does not stop the timer *)

(** X22.  In a world a run has reached, while a note is being edited:
    an edit of the content followed by "cancel" puts the stored text
    back, but the timer the edit started stays pending.  Two seconds
    later it sends a PUT of the note's own title and content (trimmed),
    when neither is empty once trimmed. *)
Theorem cancel_keeps_timer
  (page : NotesApp) (r0 : Fetched (list Note)) (events : list Event)
  (note : Note) (typed : string) (r : Fetched Note) :
  let w := fst (run events (start page r0)) in
  editorState (app w) = Some (Editing note) ->
  JsString.trim (Note.title note) <> ""%string ->
  JsString.trim (Note.content note) <> ""%string ->
  snd (run [input_noteContent typed; click_cancelBtn; elapse 2000 r] w)
  = [[]; [];
     [fetch (mkRequest (note_url note) PUT
               (Some (JsString.trim (Note.title note),
                      JsString.trim (Note.content note))))]].
Proof.
  intros w Hed Ht Hc.
  assert (one_timer w) as Hinv by (apply run_one_timer; left; reflexivity).
  pose proof Hed as Hstate. apply editorState_Editing in Hed as [Hcur Hflag].
  set (w1 := set_app (set_noteContent_value typed (app w)) w).
  assert (step (input_noteContent typed) w = (autoSave w1, [])) as Hs1
      by reflexivity.
  destruct (autoSave_restarts w1 Hinv) as (Ht1 & _ & Ha1 & Hc1).
  set (w2 := set_app (cancelEdit (app (autoSave w1))) (autoSave w1)).
  assert (step click_cancelBtn (autoSave w1) = (w2, [])) as Hs2 by reflexivity.
  assert (timers w2 = [(nextTimer w1, (clock w1 + 2000)%N)]) as Ht2 by exact Ht1.
  pose proof (step_elapse_due 2000 r _ _ w2 Ht2) as Hs3.
  change (clock w2) with (clock (autoSave w1)) in Hs3.
  rewrite Hc1 in Hs3. specialize (Hs3 (N.le_refl _)).
  rewrite !run_cons, Hs1. cbn [fst snd]. rewrite Hs2. cbn [fst snd].
  rewrite Hs3. cbn [fst snd run].
  change (app w2) with (cancelEdit (app (autoSave w1))). rewrite Ha1.
  assert (cancelEdit (app w1) = populateEditor note (app w1)) as ->.
  { unfold cancelEdit. change (currentNote (app w1)) with (currentNote (app w)).
    now rewrite Hcur. }
  set (a := populateEditor note (app w1)).
  assert (editorState a = Some (Editing note)) as Heda by exact Hstate.
  rewrite (autoSave_callback_editing r note a Heda).
  unfold saveNote. rewrite saveNote_request_valid by assumption.
  cbn [fst snd]. change (currentNote a) with (currentNote (app w)).
  rewrite Hcur. reflexivity.
Qed.

(** * The page with requests on their way *)

(** The methods suspend at [await fetch(..)]: the page handles other
    events while a request is pending, and the continuation runs in the
    state it finds when the answer arrives.  Nothing cancels a pending
    request.  [Page] keeps the continuations that wait; [advance] takes
    clicks, edits, the passing of time and the answers one at a time, in
    any order. *)

(** The continuation a pending [fetch] will resume. *)
Inductive Awaiting : Type :=
| awaiting_load
| awaiting_save (silent : bool)
| awaiting_delete.

(** The way a pending request settles, for each kind of continuation. *)
Inductive Answer : Type :=
| load_answer (r : Fetched (list Note))
| save_answer (r : Fetched Note)
| delete_answer (r : Fetched unit).

Record Page : Type := mkPage {
  world : World;
  inflight : list Awaiting
}.

Inductive Input : Type :=
| press_newNoteBtn
| press_saveBtn
| press_deleteBtn (confirmed : bool)
| press_cancelBtn
| type_searchInput (value : string)
| press_note_item (dataId : string)
| type_noteTitle (value : string)
| type_noteContent (value : string)
| wait (ms : N)
| settle (k : nat) (answer : Answer).

(** One continuation for every [fetch] a method made. *)
Definition waiting (c : Awaiting) (effects : list Effect) : list Awaiting :=
  map (fun _ => c) (filter is_fetch effects).

(** The continuation [c] on the answer; [None] when the answer is not
    one to that kind of request. *)
Definition resume (c : Awaiting) (answer : Answer) (a : NotesApp) : option NotesApp :=
  match c, answer with
  | awaiting_load, load_answer r => Some (loadNotes_response r a)
  | awaiting_save silent, save_answer r => Some (saveNote_response silent r a)
  | awaiting_delete, delete_answer r => Some (deleteNote_response r a)
  | _, _ => None
  end.

(** The callback of the auto-save timer up to the [fetch] of its
    [saveNote(true)]. *)
Definition autoSave_callback_request (a : NotesApp) : NotesApp * list Effect :=
  if isEditing a && match currentNote a with Some _ => true | None => false end
  then saveNote_request true a
  else (a, []).

Fixpoint fire_request (due : list (nat * N)) (a : NotesApp) : NotesApp * list Effect :=
  match due with
  | [] => (a, [])
  | _ :: due' =>
      let (a1, e1) := autoSave_callback_request a in
      let (a2, e2) := fire_request due' a1 in
      (a2, e1 ++ e2)
  end.

Definition advance (i : Input) (p : Page) : Page * list Effect :=
  let w := world p in
  match i with
  | press_newNoteBtn => (mkPage (set_app (createNewNote (app w)) w) (inflight p), [])
  | press_saveBtn =>
      let (a, effects) := saveNote_request false (app w) in
      (mkPage (set_app a w) (inflight p ++ waiting (awaiting_save false) effects),
       effects)
  | press_deleteBtn confirmed =>
      let (a, effects) := deleteNote_request confirmed (app w) in
      (mkPage (set_app a w) (inflight p ++ waiting awaiting_delete effects), effects)
  | press_cancelBtn => (mkPage (set_app (cancelEdit (app w)) w) (inflight p), [])
  | type_searchInput value =>
      (mkPage (set_app (searchNotes value (app w)) w) (inflight p), [])
  | press_note_item dataId =>
      (mkPage (set_app (selectNote dataId (app w)) w) (inflight p), [])
  | type_noteTitle value =>
      (mkPage (autoSave (set_app (set_noteTitle_value value (app w)) w)) (inflight p),
       [])
  | type_noteContent value =>
      (mkPage (autoSave (set_app (set_noteContent_value value (app w)) w)) (inflight p),
       [])
  | wait ms =>
      let now := (clock w + ms)%N in
      let due := filter (is_due now) (timers w) in
      let (a, effects) := fire_request due (app w) in
      (mkPage
         (mkWorld a (saveTimeout w)
            (filter (fun t => negb (is_due now t)) (timers w))
            now (nextTimer w))
         (inflight p ++ waiting (awaiting_save true) effects),
       effects)
  | settle k answer =>
      match nth_error (inflight p) k with
      | None => (p, [])
      | Some c =>
          match resume c answer (app w) with
          | None => (p, [])
          | Some a =>
              (mkPage (set_app a w) (firstn k (inflight p) ++ skipn (S k) (inflight p)),
               [])
          end
      end
  end.

(** A sequence of inputs, with the effects of each. *)
Fixpoint play (inputs : list Input) (p : Page) : Page * list (list Effect) :=
  match inputs with
  | [] => (p, [])
  | i :: inputs' =>
      let (p1, effects) := advance i p in
      let (p2, trace) := play inputs' p1 in
      (p2, effects :: trace)
  end.

(** The page after [new NotesApp()]: the constructor has called
    [loadNotes] and does not wait for it. *)
Definition open (page : NotesApp) : Page :=
  mkPage (mkWorld (fst (loadNotes_request (constructor page))) None [] 0%N 0%nat)
    [awaiting_load].

(** A page with nothing pending. *)
Definition calm (w : World) : Page := mkPage w [].

(** An event of [step] as inputs of the page: the request and, at
    once, its answer. *)
Definition at_once (e : Event) : list Input :=
  match e with
  | click_newNoteBtn => [press_newNoteBtn]
  | click_saveBtn r => [press_saveBtn; settle 0 (save_answer r)]
  | click_deleteBtn confirmed r => [press_deleteBtn confirmed; settle 0 (delete_answer r)]
  | click_cancelBtn => [press_cancelBtn]
  | input_searchInput value => [type_searchInput value]
  | click_note_item dataId => [press_note_item dataId]
  | input_noteTitle value => [type_noteTitle value]
  | input_noteContent value => [type_noteContent value]
  | elapse ms r => [wait ms; settle 0 (save_answer r)]
  end.

(** ** The methods in one step are the page answered at once *)

Lemma play_app (xs ys : list Input) (p : Page) :
  fst (play (xs ++ ys) p) = fst (play ys (fst (play xs p))).
Proof.
  revert p; induction xs as [|i xs IH]; intros p; [reflexivity|].
  simpl. destruct (advance i p) as [p1 effects]. specialize (IH p1).
  destruct (play (xs ++ ys) p1), (play xs p1). exact IH.
Qed.

Lemma advance_at_once (e : Event) (w : World) :
  one_timer w -> fst (play (at_once e) (calm w)) = calm (fst (step e w)).
Proof.
  intros Hinv. destruct e; try reflexivity.
  - cbn [at_once play advance step world calm inflight app_nil_l].
    unfold saveNote, saveNote_request.
    destruct (negb (JsString.truthy (JsString.trim (noteTitle_value (app w))))
              || negb (JsString.truthy (JsString.trim (noteContent_value (app w)))));
      reflexivity.
  - cbn [at_once play advance step world calm inflight app_nil_l].
    unfold deleteNote, deleteNote_request.
    destruct (currentNote (app w)); [destruct confirmed|]; reflexivity.
  - cbn [at_once play advance step world calm inflight app_nil_l].
    destruct Hinv as [E | (h & due & E & _)]; rewrite E; cbn [filter];
      [reflexivity|].
    destruct (is_due (clock w + ms) (h, due)); cbn [negb fire fire_request];
      [|reflexivity].
    unfold autoSave_callback, autoSave_callback_request.
    destruct (isEditing (app w)
              && match currentNote (app w) with Some _ => true | None => false end);
      [|reflexivity].
    unfold saveNote, saveNote_request.
    destruct (negb (JsString.truthy (JsString.trim (noteTitle_value (app w))))
              || negb (JsString.truthy (JsString.trim (noteContent_value (app w)))));
      reflexivity.
Qed.

(** A run of [step] is the page on the same events with every request
    answered before the next event. *)
Lemma play_at_once (events : list Event) (w : World) :
  one_timer w ->
  fst (play (flat_map at_once events) (calm w)) = calm (fst (run events w)).
Proof.
  revert w; induction events as [|e events IH]; intros w Hinv; [reflexivity|].
  cbn [flat_map]. rewrite play_app, advance_at_once, run_cons by assumption.
  cbn [fst]. apply IH, step_one_timer, Hinv.
Qed.

Lemma open_at_once (page : NotesApp) (r : Fetched (list Note)) :
  fst (play [settle 0 (load_answer r)] (open page)) = calm (start page r).
Proof. reflexivity. Qed.

Lemma play_answered_at_once
  (page : NotesApp) (r0 : Fetched (list Note)) (events : list Event) :
  fst (play (settle 0 (load_answer r0) :: flat_map at_once events) (open page))
  = calm (fst (run events (start page r0))).
Proof.
  change (settle 0 (load_answer r0) :: flat_map at_once events)
    with ([settle 0 (load_answer r0)] ++ flat_map at_once events).
  rewrite play_app, open_at_once. apply play_at_once. left. reflexivity.
Qed.

(** X1.  When every request is answered before the next event is
    handled, and the server answers as the data model says (one note
    per identifier in the list it returns, the identifier of the note
    updated in the answer to an update, a new identifier in the answer
    to a creation), every state the page reaches has nothing pending,
    keeps one note per identifier in the collection, and has the bound
    note in the collection.  The restriction matters: with an answer
    that arrives after another event both properties can fail. *)
Theorem consistent_when_answered_at_once
  (page : NotesApp) (r0 : Fetched (list Note)) (events : list Event) :
  honest_start r0 ->
  honest_run events (start page r0) ->
  inflight (fst (play (settle 0 (load_answer r0) :: flat_map at_once events)
                   (open page))) = []
  /\ NoDup (map Note.id
              (notes (app (world (fst (play (settle 0 (load_answer r0)
                                               :: flat_map at_once events)
                                        (open page)))))))
  /\ forall cur,
      currentNote (app (world (fst (play (settle 0 (load_answer r0)
                                            :: flat_map at_once events)
                                     (open page))))) = Some cur ->
      In cur (notes (app (world (fst (play (settle 0 (load_answer r0)
                                              :: flat_map at_once events)
                                       (open page)))))).
Proof.
  intros Hstart Hrun. rewrite play_answered_at_once. split; [reflexivity|].
  apply (run_consistent events (start page r0)); [|exact Hrun].
  apply start_consistent, Hstart.
Qed.

(** X19.  Click a list item, type anything into the title and into the
    content, and click cancel: nothing is sent, and the application
    object with all the fields of the page is what the click on the
    item alone leaves; so are the pending requests and the clock.  What
    the edits leave behind is the auto-save timer: one is pending, due
    2000 ms after the edits, and cancel does not clear it. *)
Theorem select_type_cancel_page
  (noteId title content : string) (note : Note) (p : Page) :
  find (id_is noteId) (notes (app (world p))) = Some note ->
  one_timer (world p) ->
  snd (play [press_note_item noteId; type_noteTitle title;
             type_noteContent content; press_cancelBtn] p) = [[]; []; []; []]
  /\ app (world (fst (play [press_note_item noteId; type_noteTitle title;
                            type_noteContent content; press_cancelBtn] p)))
     = app (world (fst (play [press_note_item noteId] p)))
  /\ inflight (fst (play [press_note_item noteId; type_noteTitle title;
                          type_noteContent content; press_cancelBtn] p))
     = inflight (fst (play [press_note_item noteId] p))
  /\ clock (world (fst (play [press_note_item noteId; type_noteTitle title;
                              type_noteContent content; press_cancelBtn] p)))
     = clock (world (fst (play [press_note_item noteId] p)))
  /\ exists handle,
      timers (world (fst (play [press_note_item noteId; type_noteTitle title;
                                type_noteContent content; press_cancelBtn] p)))
      = [(handle, (clock (world p) + 2000)%N)].
Proof.
  intros Hfind Hinv.
  set (w1 := set_app (selectNote noteId (app (world p))) (world p)).
  set (w2 := autoSave (set_app (set_noteTitle_value title (app w1)) w1)).
  set (w3 := autoSave (set_app (set_noteContent_value content (app w2)) w2)).
  assert (play [press_note_item noteId; type_noteTitle title;
                type_noteContent content; press_cancelBtn] p
          = (mkPage (set_app (cancelEdit (app w3)) w3) (inflight p),
             [[]; []; []; []])) as -> by reflexivity.
  assert (fst (play [press_note_item noteId] p) = mkPage w1 (inflight p)) as ->
      by reflexivity.
  assert (one_timer w2) as Hinv2 by (apply one_timer_autoSave; exact Hinv).
  destruct (autoSave_restarts
              (set_app (set_noteTitle_value title (app w1)) w1) Hinv)
    as (_ & _ & _ & Hc2).
  destruct (autoSave_restarts
              (set_app (set_noteContent_value content (app w2)) w2) Hinv2)
    as (Ht3 & _ & _ & Hc3).
  fold w2 in Hc2. fold w3 in Ht3, Hc3. cbn [fst snd world app inflight set_app clock timers].
  split; [reflexivity|]. split; [|split; [reflexivity|split]].
  - subst w3 w2. repeat (rewrite app_autoSave; cbn [app set_app]).
    subst w1. cbn [app set_app].
    apply (select_type_cancel noteId title content note _ Hfind).
  - rewrite Hc3. cbn [clock set_app]. exact Hc2.
  - exists (nextTimer w2). rewrite Ht3. cbn [clock nextTimer set_app].
    now rewrite Hc2.
Qed.

(** ** The collection stays sorted, also with requests pending *)

Lemma saveNote_request_notes (silent : bool) (a : NotesApp) :
  notes (fst (saveNote_request silent a)) = notes a.
Proof.
  unfold saveNote_request.
  destruct (negb (JsString.truthy (JsString.trim (noteTitle_value a)))
            || negb (JsString.truthy (JsString.trim (noteContent_value a))));
    destruct silent; reflexivity.
Qed.

Lemma fire_request_notes (due : list (nat * N)) (a : NotesApp) :
  notes (fst (fire_request due a)) = notes a.
Proof.
  revert a; induction due as [|t due IH]; intros a; [reflexivity|].
  simpl. unfold autoSave_callback_request.
  destruct (isEditing a && match currentNote a with Some _ => true | None => false end).
  - pose proof (saveNote_request_notes true a) as H.
    destruct (saveNote_request true a) as [a1 e1]. cbn [fst] in H.
    specialize (IH a1). destruct (fire_request due a1). cbn [fst] in *. congruence.
  - specialize (IH a). destruct (fire_request due a). exact IH.
Qed.

Lemma resume_sorted (c : Awaiting) (answer : Answer) (a a' : NotesApp) :
  resume c answer a = Some a' ->
  StronglySorted newest_first (notes a) ->
  StronglySorted newest_first (notes a').
Proof.
  intros Hres Hs. destruct c, answer; try discriminate; injection Hres as <-.
  - unfold loadNotes_response. destruct r as [|status [l|]]; try exact Hs.
    rewrite renderNotesList_all. apply sort_sorted.
  - destruct r as [|status [saved|]].
    + destruct silent; exact Hs.
    + destruct (ok status) eqn:Hok.
      * rewrite saveNote_response_notes by assumption. apply sort_sorted.
      * unfold saveNote_response. rewrite Hok. destruct silent; exact Hs.
    + unfold saveNote_response. destruct (ok status), silent; exact Hs.
  - unfold deleteNote_response. destruct r as [|status body]; [exact Hs|].
    destruct (ok status); [|exact Hs]. cbn [negb].
    destruct (currentNote a) as [cur|].
    + rewrite renderNotesList_all. apply sort_sorted.
    + destruct (notes a) eqn:E; [constructor|]. cbn. rewrite E. exact Hs.
Qed.

Lemma advance_sorted (i : Input) (p : Page) :
  StronglySorted newest_first (notes (app (world p))) ->
  StronglySorted newest_first (notes (app (world (fst (advance i p))))).
Proof.
  intros H. destruct i; cbn [advance].
  - exact H.
  - pose proof (saveNote_request_notes false (app (world p))) as Hn.
    destruct (saveNote_request false (app (world p))). cbn [fst] in *.
    cbn. now rewrite Hn.
  - unfold deleteNote_request.
    destruct (currentNote (app (world p))); [destruct confirmed|]; exact H.
  - cbn. unfold cancelEdit. destruct (currentNote (app (world p))); exact H.
  - pose proof (step_sorted (input_searchInput value) (world p) H) as Hs. exact Hs.
  - pose proof (step_sorted (click_note_item dataId) (world p) H) as Hs. exact Hs.
  - cbn [fst world]. rewrite app_autoSave. exact H.
  - cbn [fst world]. rewrite app_autoSave. exact H.
  - pose proof (fire_request_notes
                  (filter (is_due (clock (world p) + ms)) (timers (world p)))
                  (app (world p))) as Hn.
    destruct (fire_request _ (app (world p))). cbn [fst] in *. cbn. now rewrite Hn.
  - destruct (nth_error (inflight p) k) as [c|]; [|exact H].
    destruct (resume c answer (app (world p))) as [a'|] eqn:E; [|exact H].
    cbn. eapply resume_sorted; eauto.
Qed.

(** X26.  In every state the page reaches, in whatever order clicks,
    edits, timers and the answers to pending requests come, and whatever
    the server answers, [this.notes] is sorted by [updatedAt]
    descending: every continuation that writes [this.notes] calls
    [renderNotesList] before it returns. *)
Theorem sorted_with_requests_pending (page : NotesApp) (inputs : list Input) :
  StronglySorted newest_first (notes (app (world (fst (play inputs (open page)))))).
Proof.
  assert (forall p,
             StronglySorted newest_first (notes (app (world p))) ->
             StronglySorted newest_first (notes (app (world (fst (play inputs p))))))
    as H.
  { induction inputs as [|i inputs IH]; intros p Hp; [exact Hp|].
    simpl. pose proof (advance_sorted i p Hp) as H1.
    destruct (advance i p) as [p1 effects]. cbn [fst] in H1.
    specialize (IH p1 H1). destruct (play inputs p1). exact IH. }
  apply H. constructor.
Qed.

End Methods.

(** ** Examples *)

(** The page after the start, a click on the item of [note_a] and an
    edit of its content. *)
Definition editing_a : NotesApp :=
  app (fst (run decimalDate
              [click_note_item "a"; input_noteContent "first, edited"]
              (start decimalDate blank_page loaded))).

(** The page after the start, a click on "new note" and a title typed,
    the content still empty. *)
Definition creating_untitled : NotesApp :=
  app (fst (run decimalDate
              [click_newNoteBtn; input_noteTitle "Hello"]
              (start decimalDate blank_page loaded))).

Example render_order :
  notesList (app (start decimalDate blank_page loaded))
  = note_items [mkItem false "b" "Beta" "second" "2"; mkItem false "a" "Alpha" "first" "1"].
Proof. reflexivity. Qed.

Example create_scenario :
  let w := fst (run decimalDate
                  [click_newNoteBtn; input_noteTitle "Hello"; input_noteContent "World";
                   click_saveBtn (response 201 (Some note_n1))]
                  (start decimalDate blank_page loaded)) in
  notes (app w) = [note_n1; note_b; note_a]
  /\ editorState (app w) = Some (Editing note_n1).
Proof. vm_compute. split; reflexivity. Qed.

Example preview_120 :
  preview (Note.mk "long" "Long"
             "012345678901234567890123456789012345678901234567890123456789012345678901234567890123456789012345678901234567890123456789"
             1 1)
  = "0123456789012345678901234567890123456789012345678901234567890123456789012345678901234567890123456789...".
Proof. reflexivity. Qed.

Example preview_100 :
  preview (Note.mk "full" "Full"
             "0123456789012345678901234567890123456789012345678901234567890123456789012345678901234567890123456789"
             1 1)
  = "0123456789012345678901234567890123456789012345678901234567890123456789012345678901234567890123456789".
Proof. reflexivity. Qed.

Example search_case_insensitive :
  notesList (searchNotes decimalDate "ALP" (app (start decimalDate blank_page loaded)))
  = note_items [mkItem false "a" "Alpha" "first" "1"].
Proof. reflexivity. Qed.

Lemma saveNote_invalid_witness :
  snd (saveNote decimalDate true rejected creating_untitled) = []
  /\ fst (saveNote decimalDate true rejected creating_untitled) = creating_untitled.
Proof.
  apply (saveNote_invalid decimalDate true rejected creating_untitled).
  right. reflexivity.
Defined.

Lemma editing_a_consistent : consistent editing_a.
Proof.
  apply (run_consistent decimalDate
           [click_note_item "a"; input_noteContent "first, edited"]
           (start decimalDate blank_page loaded)).
  - apply start_consistent. simpl. repeat constructor; simpl; intuition discriminate.
  - simpl. auto.
Defined.

Lemma saveNote_updates_witness :
  filter (id_is (Note.id note_a))
    (notes (fst (saveNote decimalDate true (response 200 (Some note_a2)) editing_a)))
  = [note_a2]
  /\ editorState (fst (saveNote decimalDate true (response 200 (Some note_a2)) editing_a))
     = Some (Editing note_a2)
  /\ snd (saveNote decimalDate true (response 200 (Some note_a2)) editing_a)
     = [fetch (mkRequest (note_url note_a) PUT
                 (Some (JsString.trim (noteTitle_value editing_a),
                        JsString.trim (noteContent_value editing_a))))].
Proof.
  apply (saveNote_updates decimalDate true 200 note_a note_a2 editing_a).
  - reflexivity.
  - vm_compute. discriminate.
  - vm_compute. discriminate.
  - exact editing_a_consistent.
  - reflexivity.
  - reflexivity.
Defined.

Lemma others_unchanged_witness :
  Permutation
    (filter (other_than (Note.id note_a))
       (notes (fst (saveNote decimalDate true (response 200 (Some note_a2)) editing_a))))
    (filter (other_than (Note.id note_a)) (notes editing_a))
  /\ Permutation
       (note_a :: notes (fst (deleteNote decimalDate true (response 204 None) editing_a)))
       (notes editing_a).
Proof.
  destruct (others_unchanged decimalDate note_a editing_a eq_refl) as [Hsave Hdelete].
  split.
  - apply Hsave; [vm_compute; discriminate | vm_compute; discriminate
                 | reflexivity | reflexivity].
  - apply (Hdelete 204%Z None eq_refl). exact editing_a_consistent.
Defined.

(** C2, the spec's last clause fails.  After "new note" the editor is
    creating and no timer is pending.  Title and content are typed,
    both while creating; "save" is clicked and the server answers with
    the created note before two seconds are over.  When the two seconds
    are over the timer that the last edit started finds a bound note
    and saves it: an auto-save PUT that edits made while creating led
    to. *)
Lemma creating_edits_reach_autoSave :
  let w0 := fst (run decimalDate [click_newNoteBtn]
                   (start decimalDate blank_page loaded)) in
  let events := [input_noteTitle "Hello"; input_noteContent "World";
                 click_saveBtn (response 201 (Some note_n1));
                 elapse 2000 (response 200 (Some note_n2))] in
  editorState (app w0) = Some Creating
  /\ timers w0 = []
  /\ editorState (app (fst (run decimalDate [input_noteTitle "Hello"] w0))) = Some Creating
  /\ autoSave_effects events (snd (run decimalDate events w0))
     = [fetch (mkRequest "/api/notes/n1" PUT (Some ("Hello", "World")))].
Proof. vm_compute. repeat split. Qed.

(** C6, the code at the failing input.  [GET /api/notes] is answered
    with status 500 and a JSON array: [loadNotes] takes the array for
    the collection, renders it and reports no error, where the
    specification has every status outside 200-299 fail the load and
    leave the collection empty.  ([saveNote] and [deleteNote] test
    [response.ok]; [loadNotes] does not.) *)
Theorem loadNotes_accepts_status_500 :
  ok 500 = false
  /\ notes (fst (loadNotes decimalDate (response 500 (Some [note_n1]))
                   (constructor blank_page))) = [note_n1]
  /\ notesList (fst (loadNotes decimalDate (response 500 (Some [note_n1]))
                       (constructor blank_page)))
     = note_items [mkItem false "n1" "Hello" "World" "5"]
  /\ notifications (fst (loadNotes decimalDate (response 500 (Some [note_n1]))
                           (constructor blank_page))) = [].
Proof. repeat split. Qed.

Lemma deleteNote_removes_witness :
  (forall note,
      In note (notes (fst (deleteNote decimalDate true (response 204 None) editing_a))) ->
      Note.id note <> Note.id note_a)
  /\ editorState (fst (deleteNote decimalDate true (response 204 None) editing_a))
     = Some Closed
  /\ deleteNote decimalDate true (response 204 None) creating_untitled
     = (creating_untitled, []).
Proof.
  destruct (deleteNote_removes decimalDate editing_a) as [Hbound _].
  destruct (Hbound note_a 204%Z None eq_refl eq_refl) as (Hgone & Hclosed & _).
  destruct (deleteNote_removes decimalDate creating_untitled) as [_ Hunbound].
  split; [exact Hgone|]. split; [exact Hclosed|].
  apply Hunbound. right. reflexivity.
Defined.

Lemma cancelEdit_reverts_witness :
  noteContent_value editing_a = "first, edited"%string
  /\ noteContent_value (cancelEdit decimalDate editing_a) = "first"%string
  /\ editorState (cancelEdit decimalDate editing_a) = Some (Editing note_a)
  /\ editorState (cancelEdit decimalDate creating_untitled) = Some Closed.
Proof.
  destruct (cancelEdit_reverts decimalDate editing_a) as [Hbound _].
  destruct (Hbound note_a eq_refl) as (_ & Hcontent & Hstate & _).
  destruct (cancelEdit_reverts decimalDate creating_untitled) as [_ Hunbound].
  destruct (Hunbound eq_refl) as (Hclosed & _).
  split; [reflexivity|]. split; [exact Hcontent|]. split; [exact Hstate | exact Hclosed].
Defined.

(** ** A response that arrives late *)

(** The theorems above are about a method whose response is handled in
    the state its request left.  The continuations read [this.currentNote]
    again: when another note is selected while a silent save is on its
    way, the payload lands in the slot of the note selected by then. *)
Example late_response :
  let a1 := fst (saveNote_request true editing_a) in
  let a2 := selectNote decimalDate "b" a1 in
  let a3 := saveNote_response decimalDate true (response 200 (Some note_a2)) a2 in
  snd (saveNote_request true editing_a)
  = [fetch (mkRequest "/api/notes/a" PUT (Some ("Alpha", "first, edited")))]
  /\ notes a2 = [note_b; note_a]
  /\ notes a3 = [note_a2; note_a].
Proof. vm_compute. repeat split. Qed.

(** ** More examples *)

(** The page after the start. *)
Definition loaded_app : NotesApp := app (start decimalDate blank_page loaded).

(** The page after the start, a click on "new note" and a title and a
    content typed. *)
Definition creating_ready : NotesApp :=
  app (fst (run decimalDate
              [click_newNoteBtn; input_noteTitle "Hello"; input_noteContent "World"]
              (start decimalDate blank_page loaded))).

Lemma saveNote_failure_witness :
  notes (fst (saveNote decimalDate false (response 500 None) editing_a))
  = notes editing_a
  /\ noteContent_value (fst (saveNote decimalDate false (response 500 None) editing_a))
     = "first, edited"%string
  /\ notifications (fst (saveNote decimalDate false (response 500 None) editing_a))
     = notifications editing_a ++ [("Failed to save note", "error")%string].
Proof.
  destruct (saveNote_failure decimalDate false (response 500 None) editing_a)
    as (_ & Hnotes & _ & _ & _ & _ & Hcontent & _ & Hshown & _).
  - vm_compute. discriminate.
  - vm_compute. discriminate.
  - reflexivity.
  - split; [exact Hnotes|]. split; [exact Hcontent | exact Hshown].
Defined.


Lemma loaded_app_ids : NoDup (map Note.id (notes loaded_app)).
Proof. vm_compute. repeat constructor; simpl; intuition discriminate. Defined.

Lemma createNewNote_after_select_witness :
  editorState (createNewNote (selectNote decimalDate "a" loaded_app)) = Some Creating
  /\ active_ids (notesList (createNewNote (selectNote decimalDate "a" loaded_app)))
     = ["a"%string].
Proof.
  destruct (createNewNote_after_select decimalDate "a" note_a loaded_app eq_refl
              loaded_app_ids) as (Hstate & _ & _ & _ & _ & _ & _ & Hactive).
  split; [exact Hstate | exact Hactive].
Defined.

Lemma escapeHtml_injective_witness : "a < b"%string = "a < b"%string.
Proof. apply (escapeHtml_injective "a < b" "a < b"). reflexivity. Defined.

Lemma create_then_delete_witness :
  notes (fst (deleteNote decimalDate true (response 204 None)
                (fst (saveNote decimalDate false (response 201 (Some note_n1))
                        creating_ready))))
  = notes creating_ready
  /\ editorState (fst (deleteNote decimalDate true (response 204 None)
                         (fst (saveNote decimalDate false (response 201 (Some note_n1))
                                 creating_ready))))
     = Some Closed.
Proof.
  apply (create_then_delete decimalDate blank_page loaded
           [click_newNoteBtn; input_noteTitle "Hello"; input_noteContent "World"]
           false 201 204 note_n1 None).
  - reflexivity.
  - vm_compute. discriminate.
  - vm_compute. discriminate.
  - reflexivity.
  - reflexivity.
  - vm_compute. intuition discriminate.
Defined.

Lemma debounce_burst_witness :
  snd (run decimalDate
         [input_noteContent "fir"; elapse 1500 rejected;
          input_noteContent "first, edited"; elapse 2000 (response 200 (Some note_a2))]
         (fst (run decimalDate [click_note_item "a"]
                 (start decimalDate blank_page loaded))))
  = [[]; []; [];
     [fetch (mkRequest "/api/notes/a" PUT (Some ("Alpha", "first, edited")%string))]].
Proof.
  apply (debounce_burst decimalDate blank_page loaded [click_note_item "a"]
           note_a "fir" "first, edited" 1500 rejected (response 200 (Some note_a2))).
  - reflexivity.
  - vm_compute. discriminate.
  - vm_compute. discriminate.
  - reflexivity.
Defined.

Lemma deleteNote_response_bound_witness :
  notes (deleteNote_response decimalDate (response 204 None) loaded_app)
  = notes loaded_app
  /\ notifications (deleteNote_response decimalDate (response 204 None) loaded_app)
     = [("Failed to delete note", "error")%string].
Proof.
  destruct (deleteNote_response_bound decimalDate 204 None loaded_app eq_refl)
    as [Hunbound _].
  destruct Hunbound as (Hnotes & _ & Hshown).
  - reflexivity.
  - vm_compute. discriminate.
  - split; [exact Hnotes | exact Hshown].
Defined.

Lemma saveNote_response_replaces_bound_witness :
  Permutation
    (notes (saveNote_response decimalDate true (response 200 (Some note_n1)) editing_a))
    (note_n1 :: filter (other_than (Note.id note_a)) (notes editing_a))
  /\ currentNote (saveNote_response decimalDate true (response 200 (Some note_n1))
                    editing_a)
     = Some note_n1.
Proof.
  apply (saveNote_response_replaces_bound decimalDate true 200 note_n1 note_a editing_a).
  - reflexivity.
  - reflexivity.
  - exact editing_a_consistent.
Defined.

Lemma searchNotes_placeholder_witness :
  notesList (searchNotes decimalDate "zebra" loaded_app) = empty_notes
  <-> forall note, In note (notes loaded_app) -> ~ Hit "zebra" note.
Proof.
  apply (searchNotes_placeholder decimalDate "zebra" loaded_app).
  vm_compute. discriminate.
Defined.

Lemma cancel_keeps_timer_witness :
  snd (run decimalDate
         [input_noteContent "typed"; click_cancelBtn; elapse 2000 rejected]
         (fst (run decimalDate [click_note_item "a"]
                 (start decimalDate blank_page loaded))))
  = [[]; [];
     [fetch (mkRequest "/api/notes/a" PUT (Some ("Alpha", "first")%string))]].
Proof.
  apply (cancel_keeps_timer decimalDate blank_page loaded [click_note_item "a"]
           note_a "typed" rejected).
  - reflexivity.
  - vm_compute. discriminate.
  - vm_compute. discriminate.
Defined.

(** ** Answers that arrive after another event *)

(** The page of the examples once the list has arrived, a click on the
    item of [note_a] and an edit of its content, every request
    answered at once. *)
Definition editing_a_page : Page :=
  fst (play decimalDate
         (settle 0 (load_answer loaded)
          :: flat_map at_once [click_note_item "a"; input_noteContent "first, edited"])
         (open blank_page)).

(** The list arrives; the item of [note_a] is clicked and its content
    edited; two seconds pass and the auto-save sends its PUT; the item
    of [note_b] is clicked; then the answer to the PUT arrives. *)
Definition late_save : list Input :=
  [settle 0 (load_answer loaded);
   press_note_item "a";
   type_noteContent "first, edited";
   wait 2000;
   press_note_item "b";
   settle 0 (save_answer (response 200 (Some note_a2)))].

(** The list arrives; the item of [note_a] is clicked; delete is
    clicked and confirmed; the item of [note_b] is clicked; then the
    answer to the DELETE arrives. *)
Definition late_delete : list Input :=
  [settle 0 (load_answer loaded);
   press_note_item "a";
   press_deleteBtn true;
   press_note_item "b";
   settle 0 (delete_answer (response 204 None))].

(** A note is created and saved while the list is still on its way;
    then the list arrives, without the new note; then the note is saved
    again. *)
Definition late_list : list Input :=
  [press_newNoteBtn;
   type_noteTitle "Hello";
   type_noteContent "World";
   press_saveBtn;
   settle 1 (save_answer (response 201 (Some note_n1)));
   settle 0 (load_answer loaded);
   press_saveBtn;
   settle 0 (save_answer (response 200 (Some note_n2)))].

(** C1, the code at the failing input.  The save is sent while
    [note_a] is being edited, with a title and a content, and the
    server answers it with success and the updated [note_a2].  The
    continuation reads [this.currentNote] again, finds [note_b] bound,
    and writes the payload into its slot: the collection holds two
    notes of the identifier "a", the old one still among them, and the
    editor is bound to [note_a2] while its fields show [note_b]. *)
Theorem save_answered_after_select :
  editorState (app (world (fst (play decimalDate (firstn 3 late_save)
                                   (open blank_page)))))
  = Some (Editing note_a)
  /\ snd (play decimalDate late_save (open blank_page))
     = [[]; []; [];
        [fetch (mkRequest "/api/notes/a" PUT (Some ("Alpha", "first, edited")%string))];
        []; []]
  /\ filter (id_is "a")
       (notes (app (world (fst (play decimalDate late_save (open blank_page))))))
     = [note_a2; note_a]
  /\ editorState (app (world (fst (play decimalDate late_save (open blank_page)))))
     = Some (Editing note_a2)
  /\ noteTitle_value (app (world (fst (play decimalDate late_save (open blank_page)))))
     = "Beta"%string.
Proof. vm_compute. repeat split. Qed.

(** C10, the code at the failing input.  The same save as above: before
    its answer the notes of identifiers other than "a" are [note_b];
    after the answer, which the server gave for "a", there is none:
    the payload has overwritten [note_b]. *)
Theorem others_lost_after_late_answer :
  filter (other_than "a")
    (notes (app (world (fst (play decimalDate (firstn 5 late_save)
                               (open blank_page))))))
  = [note_b]
  /\ filter (other_than "a")
       (notes (app (world (fst (play decimalDate late_save (open blank_page))))))
     = []
  /\ notes (app (world (fst (play decimalDate late_save (open blank_page)))))
     = [note_a2; note_a].
Proof. vm_compute. repeat split. Qed.

(** C3, the code at the failing input.  The delete is confirmed while
    [note_a] is being edited and the server answers it with success.
    The continuation filters on [this.currentNote] as it is then,
    [note_b]: the collection loses [note_b] and keeps [note_a], and the
    editor is closed. *)
Theorem delete_answered_after_select :
  editorState (app (world (fst (play decimalDate (firstn 2 late_delete)
                                   (open blank_page)))))
  = Some (Editing note_a)
  /\ snd (play decimalDate late_delete (open blank_page))
     = [[]; [];
        [confirm confirm_delete; fetch (mkRequest "/api/notes/a" DELETE None)];
        []; []]
  /\ notes (app (world (fst (play decimalDate late_delete (open blank_page)))))
     = [note_a]
  /\ editorState (app (world (fst (play decimalDate late_delete (open blank_page)))))
     = Some Closed.
Proof. vm_compute. repeat split. Qed.

(** The list that arrives late replaces the collection: the note
    created in the meantime is bound but no longer in [this.notes], and
    a later save of it, answered at once, finds no slot
    ([findIndex] gives -1) and leaves the collection without it. *)
Example save_after_late_list :
  editorState (app (world (fst (play decimalDate (firstn 6 late_list)
                                   (open blank_page)))))
  = Some (Editing note_n1)
  /\ notes (app (world (fst (play decimalDate (firstn 6 late_list)
                              (open blank_page)))))
     = [note_b; note_a]
  /\ notes (app (world (fst (play decimalDate late_list (open blank_page)))))
     = [note_b; note_a]
  /\ editorState (app (world (fst (play decimalDate late_list (open blank_page)))))
     = Some (Editing note_n2).
Proof. vm_compute. repeat split. Qed.

Lemma consistent_when_answered_at_once_witness :
  inflight editing_a_page = []
  /\ NoDup (map Note.id (notes (app (world editing_a_page))))
  /\ forall cur,
      currentNote (app (world editing_a_page)) = Some cur ->
      In cur (notes (app (world editing_a_page))).
Proof.
  apply (consistent_when_answered_at_once decimalDate blank_page loaded
           [click_note_item "a"; input_noteContent "first, edited"]).
  - simpl. repeat constructor; simpl; intuition discriminate.
  - simpl. auto.
Defined.

Lemma select_type_cancel_page_witness :
  app (world (fst (play decimalDate
                     [press_note_item "a"; type_noteTitle "Al";
                      type_noteContent "typed"; press_cancelBtn]
                     (calm (start decimalDate blank_page loaded)))))
  = app (world (fst (play decimalDate [press_note_item "a"]
                       (calm (start decimalDate blank_page loaded)))))
  /\ exists handle,
      timers (world (fst (play decimalDate
                            [press_note_item "a"; type_noteTitle "Al";
                             type_noteContent "typed"; press_cancelBtn]
                            (calm (start decimalDate blank_page loaded)))))
      = [(handle, 2000%N)].
Proof.
  destruct (select_type_cancel_page decimalDate "a" "Al" "typed" note_a
              (calm (start decimalDate blank_page loaded)))
    as (_ & Happ & _ & _ & Htimer).
  - reflexivity.
  - left. reflexivity.
  - split; [exact Happ | exact Htimer].
Defined.
